(** * song_recommender: [utils/functions.py]

    A shallow embedding of the name normaliser ([clean_artist_name]), the
    metadata lookup ([get_track_features]), the batch processor ([main]),
    the genre encoder ([encode_genres]), the cleaning of the million song
    subset ([clean_million_song_subset]) and the loop of the chart scraper
    ([scrape_billboard_hot_100]), followed by the properties proved about
    them.

    Conventions of the embedding.
    - A Python [str] is a list of Unicode code points ([pystr]); [py "..."]
      writes an ASCII literal.
    - A Python [dict] with string keys is a [gmap pystr pyval]; key order
      is not modelled.
    - The Spotify client, [time.sleep] and [ast.literal_eval] are external:
      they are the fields of the classes [Spotify] and [LiteralEval], and
      every theorem holds for all their instances.
    - [print], [time.sleep] and [DataFrame.to_csv] are recorded, in program
      order, in the [out] trace of the processor state. *)

From Stdlib Require Import ZArith NArith Ascii String DecimalString DecimalZ.
From stdpp Require Import gmap list sorting fin_maps.

(* ===================================================================== *)
(** * Part I: the program                                                 *)
(* ===================================================================== *)

(** ** Python strings *)

Abbreviation pystr := (list N).

(** An ASCII literal as a Python string. *)
Definition py (s : string) : pystr := N_of_ascii <$> list_ascii_of_string s.

(** [str(n)] for an integer. *)
Definition str_of_Z (z : Z) : pystr := py (NilZero.string_of_int (Z.to_int z)).

Arguments py : simpl never.
Arguments str_of_Z : simpl never.

(** [s.startswith(p)]. *)
Fixpoint startswith (p s : pystr) : bool :=
  match p, s with
  | [], _ => true
  | _ :: _, [] => false
  | a :: p', b :: s' => (a =? b)%N && startswith p' s'
  end.

(** [sub in s]: [sub] occurs in [s] as a substring. *)
Fixpoint contains (sub s : pystr) : bool :=
  startswith sub s ||
  match s with
  | [] => false
  | _ :: s' => contains sub s'
  end.

(** [s.split(sep)] for a non-empty separator: a left-to-right scan that cuts
    at every occurrence of [sep] and resumes after it.  [skip] counts the
    characters of a matched separator still to be passed over, [cur] is the
    piece being collected.  (Python raises [ValueError] on an empty
    separator; no caller in this file passes one, see
    [delimiters_nonempty].) *)
Fixpoint split_from (sep : pystr) (skip : nat) (cur s : pystr) : list pystr :=
  match s with
  | [] => [cur]
  | c :: s' =>
      match skip with
      | S k => split_from sep k cur s'
      | O =>
          if startswith sep s
          then cur :: split_from sep (length sep - 1) [] s'
          else split_from sep 0 (cur ++ [c]) s'
      end
  end.

Definition split (sep s : pystr) : list pystr := split_from sep 0 [] s.

(** [l[0]] on the result of [split], which is never empty. *)
Definition first (l : list pystr) : pystr := default [] (head l).

(** The characters for which [str.isspace] holds, i.e. the ones [str.strip()]
    removes (CPython's [_PyUnicode_IsWhitespace]). *)
Definition isspace (c : N) : bool :=
  ((9 <=? c) && (c <=? 13) || (28 <=? c) && (c <=? 32) ||
   (c =? 133) || (c =? 160) || (c =? 5760) ||
   (8192 <=? c) && (c <=? 8202) ||
   (c =? 8232) || (c =? 8233) || (c =? 8239) || (c =? 8287) ||
   (c =? 12288))%N.

Fixpoint lstrip (s : pystr) : pystr :=
  match s with
  | [] => []
  | c :: s' => if isspace c then lstrip s' else s
  end.

Definition rstrip (s : pystr) : pystr := reverse (lstrip (reverse s)).

(** [s.strip()]. *)
Definition strip (s : pystr) : pystr := rstrip (lstrip s).

(** ** NameNormalizer: [clean_artist_name] *)

Definition delimiters : list pystr :=
  py <$> ["&"; "feat."; "featuring"; "Featuring"; "FEATURING"; "Feat.";
          "FEAT."; "ft."; "Ft."; "FT."; "/"; "with"; "WITH"; "With"; ",";
          "And"; "and"; "And"]%string.

(** One turn of the [for delimiter in delimiters] loop: the body rebinds
    [artist_name] when the delimiter occurs in its current value. *)
Definition clean_step (artist_name delimiter : pystr) : pystr :=
  if contains delimiter artist_name
  then strip (first (split delimiter artist_name))
  else artist_name.

(** The loop has no [break]: every delimiter gets its turn. *)
Definition clean_artist_name (artist_name : pystr) : pystr :=
  fold_left clean_step delimiters artist_name.

Arguments clean_artist_name : simpl never.

(** ** Values, exceptions and effects *)

(** The Python values that occur as table cells and dictionary values. *)
Inductive pyval :=
  | VNone
  | VBool (b : bool)
  | VInt (z : Z)
  | VStr (s : pystr)
  | VList (l : list pystr).

Abbreviation dict := (gmap pystr pyval).

(** Exceptions derived from [Exception] (the ones [except Exception]
    catches); [exn_str] is [str(e)]. *)
Inductive exn_class := KeyError | IndexError | TypeError | ValueError | SpotifyException.

Record exn := Exn { exn_kind : exn_class; exn_str : pystr }.

(** What the program does to the outside, in program order. *)
Inductive effect :=
  | PrintMsg (msg : pystr)
  | Sleep (secs : Z)
  | ToCsv (filename : pystr) (rows : list dict).

(** ** MetadataClient: [get_track_features] *)

(** The fields of a track object of the search response that the program
    reads: [track['id']], [track['popularity']], [track['duration_ms']],
    [track['album']['release_date']], the [url] of each entry of
    [track['album']['images']], [track['explicit']] and the [id] of each
    entry of [track['artists']]. *)
Record Track := {
  track_id : pystr;
  popularity : Z;
  duration_ms : Z;
  release_date : pystr;
  images : list pystr;
  explicit : bool;
  artists : list pystr
}.

(** The fields read from the artist object: [popularity] and [genres]. *)
Record ArtistInfo := {
  artist_popularity : Z;
  genres : list pystr
}.

(** The client [sp] and the clock.  [W] is whatever state the outside world
    has: a call may fail with an exception and always leaves a new world.
    [sp_search q] is [sp.search(q=q, type='track', limit=1)] reduced to
    [results['tracks']['items']]; [sp_artist] is [sp.artist];
    [time_sleep] is [time.sleep]. *)
Class Spotify (W : Type) := {
  sp_search : pystr → W → (exn + list Track) * W;
  sp_artist : pystr → W → (exn + ArtistInfo) * W;
  time_sleep : Z → W → W
}.

(** Computations that use the client: a state and exception monad. *)
Definition Call (W A : Type) : Type := W → (exn + A) * W.

#[global] Instance Call_ret {W} : MRet (Call W) := λ A a w, (inr a, w).

#[global] Instance Call_bind {W} : MBind (Call W) := λ A B k c w,
  match c w with
  | (inl e, w') => (inl e, w')
  | (inr a, w') => k a w'
  end.

Definition raise {W A} (e : exn) : Call W A := λ w, (inl e, w).

(** [l[0]]: [IndexError] on an empty list. *)
Definition item0 {W A} (l : list A) : Call W A :=
  match l with
  | x :: _ => mret x
  | [] => raise (Exn IndexError (py "list index out of range"))
  end.

Definition get_track_features `{Spotify W}
    (track_name artist_name : pystr) : Call W (option dict) :=
  let query := py "track:" ++ track_name ++ py " artist:" ++ artist_name in
  items ← sp_search query;
  match items with
  | [] => mret None
  | track :: _ =>
      artist_id ← item0 (artists track);
      artist_info ← sp_artist artist_id;
      album_cover_url ← item0 (images track);
      mret (Some (<[py "track_id" := VStr (track_id track)]>
                (<[py "popularity" := VInt (popularity track)]>
                (<[py "duration_ms" := VInt (duration_ms track)]>
                (<[py "album_release_year" := VStr (take 4 (release_date track))]>
                (<[py "album_cover_url" := VStr album_cover_url]>
                (<[py "explicit" := VBool (explicit track)]>
                (<[py "artist_popularity" := VInt (artist_popularity artist_info)]>
                (<[py "artist_genres" := VList (genres artist_info)]> ∅)))))))))
  end.

(** ** BatchProcessor: [main] *)

(** A row of the input table: the two columns the program reads by name,
    both strings, and whatever other columns the table has. *)
Record ChartEntry := {
  Song : pystr;
  Artist : pystr;
  rest : dict
}.

(** [row.to_dict()]. *)
Definition to_dict (row : ChartEntry) : dict :=
  <[py "Song" := VStr (Song row)]> (<[py "Artist" := VStr (Artist row)]> (rest row)).

(** The local variables of [main], the client and the effects so far. *)
Record state (W : Type) := State {
  current_batch : list dict;
  failed_tracks : list dict;
  batch_number : Z;
  processed_count : Z;
  sp : W;
  out : list effect
}.

Arguments State {W}.
Arguments current_batch {W}.
Arguments failed_tracks {W}.
Arguments batch_number {W}.
Arguments processed_count {W}.
Arguments sp {W}.
Arguments out {W}.

Definition output_dir : pystr := py "../data/batches".

Definition newline : pystr := [10%N].

(** [f'{output_dir}/songs_batch_{batch_number}.csv']. *)
Definition batch_filename (batch_number : Z) : pystr :=
  output_dir ++ py "/songs_batch_" ++ str_of_Z batch_number ++ py ".csv".

Definition failed_filename : pystr := output_dir ++ py "/failed_tracks.csv".

(** Lines 113-115: the pause before a row when the number of rows attempted
    so far is a positive multiple of 50. *)
Definition pause `{Spotify W} (st : state W) : state W :=
  if (0 <? processed_count st)%Z && (processed_count st mod 50 =? 0)%Z
  then State (current_batch st) (failed_tracks st) (batch_number st)
         (processed_count st) (time_sleep 30 (sp st))
         (out st ++
            [PrintMsg (newline ++ py "Pausing for 30 seconds after processing " ++
                    str_of_Z (processed_count st) ++ py " tracks...");
             Sleep 30])
  else st.

(** Lines 111-144: the body of [for index, row in df.iterrows()], with
    [n = len(df)].  [index] is the row's index label. *)
Definition loop_body `{Spotify W} (n : Z) (st : state W) (ir : Z * ChartEntry)
    : state W :=
  let '(index, row) := ir in
  let st := pause st in
  let clean_artist := clean_artist_name (Artist row) in
  match get_track_features (Song row) clean_artist (sp st) with
  | (inl e, w) =>
      State (current_batch st) (failed_tracks st) (batch_number st)
        (processed_count st + 1) w
        (out st ++
           [PrintMsg (py "Error processing track " ++ Song row ++ py " by " ++
                   clean_artist ++ py ": " ++ exn_str e)])
  | (inr (Some features), w) =>
      let row_dict := features ∪ to_dict row in
      let current_batch := current_batch st ++ [row_dict] in
      if bool_decide (length current_batch = 50%nat) ||
         bool_decide (index = (n - 1)%Z)
      then
        match current_batch with
        | _ :: _ =>
            let batch_number := (batch_number st + 1)%Z in
            State [] (failed_tracks st) batch_number (processed_count st + 1) w
              (out st ++
                 [ToCsv (batch_filename batch_number) current_batch;
                  PrintMsg (newline ++ py "Saved batch " ++ str_of_Z batch_number ++
                         py " with " ++
                         str_of_Z (Z.of_nat (length current_batch)) ++
                         py " tracks")])
        | [] =>
            State current_batch (failed_tracks st) (batch_number st)
              (processed_count st + 1) w (out st)
        end
      else
        State current_batch (failed_tracks st) (batch_number st)
          (processed_count st + 1) w (out st)
  | (inr None, w) =>
      State (current_batch st)
        (failed_tracks st ++
           [<[py "track_name" := VStr (Song row)]>
              (<[py "artist_name" := VStr (Artist row)]> ∅)])
        (batch_number st) (processed_count st + 1) w (out st)
  end.

(** Lines 146-151: the flush after the loop. *)
Definition flush_final {W} (st : state W) : state W :=
  match current_batch st with
  | _ :: _ =>
      let batch_number := (batch_number st + 1)%Z in
      State (current_batch st) (failed_tracks st) batch_number
        (processed_count st) (sp st)
        (out st ++
           [ToCsv (batch_filename batch_number) (current_batch st);
            PrintMsg (newline ++ py "Saved final batch " ++ str_of_Z batch_number ++
                   py " with " ++
                   str_of_Z (Z.of_nat (length (current_batch st))) ++
                   py " tracks")])
  | [] => st
  end.

(** Lines 153-156: the failure file. *)
Definition save_failed {W} (st : state W) : state W :=
  match failed_tracks st with
  | _ :: _ =>
      State (current_batch st) (failed_tracks st) (batch_number st)
        (processed_count st) (sp st)
        (out st ++
           [ToCsv failed_filename (failed_tracks st);
            PrintMsg (newline ++ py "Failed to process " ++
                   str_of_Z (Z.of_nat (length (failed_tracks st))) ++
                   py " tracks (saved to failed_tracks.csv)")])
  | [] => st
  end.

(** The table as [df.iterrows()] yields it: index label and row, in table
    order.  A table built without an explicit index carries the labels
    [0, 1, ..., len(df) - 1]; a slice, a filtered or a re-ordered table keeps
    the labels its rows had before. *)
Abbreviation DataRows := (list (Z * ChartEntry)).

Definition init_state {W} (sp0 : W) : state W := State [] [] 51 0 sp0 [].

Definition main_loop `{Spotify W} (df : DataRows) (st : state W) : state W :=
  fold_left (loop_body (Z.of_nat (length df))) df st.

(** [main(df)], from the point where [setup_spotify()] has returned the
    client [sp0]; the result is the final state with its effect trace. *)
Definition main `{Spotify W} (sp0 : W) (df : DataRows) : state W :=
  save_failed (flush_final (main_loop df (init_state sp0))).

(** ** GenreEncoder: [encode_genres] *)

(** A table by columns, in column order: label and cells.  Labels may
    repeat, as they can in pandas (the result of [pd.concat] repeats a label
    when a genre is called like an existing column). *)
Abbreviation DataFrame := (list (pystr * list pyval)).

(** [ast.literal_eval] on the text of a cell: a value or an exception. *)
Class LiteralEval := literal_eval : pystr → exn + pyval.

(** [df[key]] for a column label.  A missing label raises [KeyError].  When
    the label occurs more than once pandas hands back a sub-table instead of
    a column; that case is outside the model ([None]). *)
Definition getitem (df : DataFrame) (key : pystr) : option (exn + list pyval) :=
  match filter (λ c, c.1 = key) df with
  | [] => Some (inl (Exn KeyError (py "'" ++ key ++ py "'")))
  | [c] => Some (inr c.2)
  | _ => None
  end.

(** [df[key] = cells] for a label the table has: the column keeps its
    place. *)
Definition setitem (df : DataFrame) (key : pystr) (cells : list pyval) : DataFrame :=
  (λ c, if bool_decide (c.1 = key) then (c.1, cells) else c) <$> df.

(** [series.apply(f)]: cell by cell, the first exception ends it. *)
Fixpoint apply (f : pyval → exn + pyval) (cells : list pyval) : exn + list pyval :=
  match cells with
  | [] => inr []
  | x :: cells' =>
      match f x with
      | inl e => inl e
      | inr y =>
          match apply f cells' with
          | inl e => inl e
          | inr ys => inr (y :: ys)
          end
      end
  end.

(** The order of [str]: lexicographic by code point. *)
Fixpoint str_leb (a b : pystr) : bool :=
  match a, b with
  | [], _ => true
  | _ :: _, [] => false
  | x :: a', y :: b' => (x <? y)%N || ((x =? y)%N && str_leb a' b')
  end.

Definition str_le (a b : pystr) : Prop := str_leb a b = true.

#[global] Instance str_le_dec : RelDecision str_le.
Proof. intros a b. unfold str_le. apply _. Defined.

Definition type_name (v : pyval) : pystr :=
  match v with
  | VNone => py "NoneType"
  | VBool _ => py "bool"
  | VInt _ => py "int"
  | VStr _ => py "str"
  | VList _ => py "list"
  end.

(** Iterating over one cell of the label column: a list gives its elements,
    a string its characters, anything else is not iterable. *)
Definition iter_labels (v : pyval) : exn + list pystr :=
  match v with
  | VList l => inr l
  | VStr s => inr ((λ c, [c]) <$> s)
  | _ => inl (Exn TypeError (py "'" ++ type_name v ++ py "' object is not iterable"))
  end.

Fixpoint iter_all (y : list pyval) : exn + list (list pystr) :=
  match y with
  | [] => inr []
  | v :: y' =>
      match iter_labels v with
      | inl e => inl e
      | inr labels =>
          match iter_all y' with
          | inl e => inl e
          | inr rows => inr (labels :: rows)
          end
      end
  end.

(** [sklearn.preprocessing.MultiLabelBinarizer]: [classes_] is the sorted
    array of the distinct labels of all rows. *)
Definition classes_ (rows : list (list pystr)) : list pystr :=
  merge_sort str_le (elements (list_to_set (concat rows) : gset pystr)).

(** [MultiLabelBinarizer().fit_transform(y)]: [classes_] and the indicator
    matrix, one row per sample and one column per class, 1 where the
    sample has the class. *)
Definition fit_transform (y : list pyval) : exn + list pystr * list (list Z) :=
  match iter_all y with
  | inl e => inl e
  | inr rows =>
      let classes := classes_ rows in
      inr (classes,
           (λ labels, (λ c, if bool_decide (c ∈ labels) then 1%Z else 0%Z) <$> classes)
             <$> rows)
  end.

(** [pd.DataFrame(matrix, columns=columns, index=...)]: column [j] holds
    entry [j] of every row of the matrix. *)
Definition DataFrame_of (matrix : list (list Z)) (columns : list pystr) : DataFrame :=
  imap (λ j genre, (genre, (λ r, VInt (nth j r 0%Z)) <$> matrix)) columns.

(** [encode_genres(df, genre_column)].  The result pairs what the call
    returns or raises with the caller's table after the call: the
    assignment of line 162 changes the table the caller passed. *)
Definition encode_genres `{LiteralEval} (df : DataFrame) (genre_column : pystr)
    : option ((exn + DataFrame) * DataFrame) :=
  match getitem df genre_column with
  | None => None
  | Some (inl e) => Some (inl e, df)
  | Some (inr cells) =>
      match apply (λ x, match x with VStr s => literal_eval s | _ => inr x end) cells with
      | inl e => Some (inl e, df)
      | inr parsed =>
          let df := setitem df genre_column parsed in
          match fit_transform parsed with
          | inl e => Some (inl e, df)
          | inr (classes, genres_encoded) =>
              let genres_df := DataFrame_of genres_encoded classes in
              let result_df := df ++ genres_df in
              Some (inr result_df, df)
          end
      end
  end.

(** The default of the second parameter. *)
Definition genre_column_default : pystr := py "artist_genres".

(** ** [clean_million_song_subset] *)

(** [s[2:-1]]: the stop is the last position (or 0 for an empty string),
    the start is 2; nothing is left when the stop is not after the start. *)
Definition slice_2_m1 (s : pystr) : pystr := drop 2 (take (length s - 1) s).

(** [series.str[2:-1]] for a column of text.  A column with a cell that is
    no text (a missing value, a number) is outside the model ([None]). *)
Definition str_slice_2_m1 (cells : list pyval) : option (list pyval) :=
  mapM (λ x, match x with VStr s => Some (VStr (slice_2_m1 s)) | _ => None end) cells.

(** [df.rename(columns={'title': 'Song', 'artist': 'Artist'})]: a new
    table, the labels mapped, the cells as they are. *)
Definition rename_columns (df : DataFrame) : DataFrame :=
  (λ c, (if bool_decide (c.1 = py "title") then py "Song"
         else if bool_decide (c.1 = py "artist") then py "Artist"
         else c.1,
         c.2)) <$> df.

(** [clean_million_song_subset(df)]: what the call returns or raises, and
    the caller's table after the call; the two assignments change the table
    the caller passed, [rename] builds the one returned. *)
Definition clean_million_song_subset (df : DataFrame)
    : option ((exn + DataFrame) * DataFrame) :=
  match getitem df (py "title") with
  | None => None
  | Some (inl e) => Some (inl e, df)
  | Some (inr cells) =>
      match str_slice_2_m1 cells with
      | None => None
      | Some title =>
          let df := setitem df (py "title") title in
          match getitem df (py "artist") with
          | None => None
          | Some (inl e) => Some (inl e, df)
          | Some (inr cells) =>
              match str_slice_2_m1 cells with
              | None => None
              | Some artist =>
                  let df := setitem df (py "artist") artist in
                  Some (inr (rename_columns df), df)
              end
          end
      end
  end.

(** ** ChartScraper: [scrape_billboard_hot_100] *)

(** A row of the chart as [soup.select('ul.o-chart-results-list-row')]
    yields it, reduced to what the loop reads: the text of the first
    [h3#title-of-a-story] and of the first [span.c-label.a-no-trucate]
    inside it, [None] where [select_one] finds no such element. *)
Record ChartItem := {
  title_of_a_story : option pystr;
  a_no_trucate : option pystr
}.

(** [None.text]: 'NoneType' object has no attribute 'text'. *)
Inductive attribute_error := NoneType_has_no_text.

(** Lines 29-34: the loop over the chart rows, with the two lists it
    appends to. *)
Fixpoint scrape_items (chart_items : list ChartItem) (songs artists : list pystr)
    : attribute_error + list pystr * list pystr :=
  match chart_items with
  | [] => inr (songs, artists)
  | item :: chart_items' =>
      match title_of_a_story item with
      | None => inl NoneType_has_no_text
      | Some text =>
          let title := strip text in
          match a_no_trucate item with
          | None => inl NoneType_has_no_text
          | Some text =>
              let artist := strip text in
              scrape_items chart_items' (songs ++ [title]) (artists ++ [artist])
          end
      end
  end.

(** [scrape_billboard_hot_100()], from the point where the page has been
    fetched and parsed and [chart_items] selected: the table
    [pd.DataFrame({'Song': songs, 'Artist': artists})]. *)
Definition scrape_billboard_hot_100 (chart_items : list ChartItem)
    : attribute_error + DataFrame :=
  match scrape_items chart_items [] [] with
  | inl e => inl e
  | inr (songs, artists) =>
      inr [(py "Song", VStr <$> songs); (py "Artist", VStr <$> artists)]
  end.

(** [df.iterrows()] for a chart table: two text columns, Song and Artist,
    and the default index a table built from a dict of lists has. *)
Definition chart_rows (df : DataFrame) : option DataRows :=
  match df with
  | [(song_label, songs); (artist_label, artists)] =>
      if bool_decide (song_label = py "Song" ∧ artist_label = py "Artist" ∧
                      length songs = length artists)
      then
        imap (λ i row, (Z.of_nat i, row)) <$>
          mapM (λ sa, match sa with
                      | (VStr s, VStr a) => Some {| Song := s; Artist := a; rest := ∅ |}
                      | _ => None
                      end)
               (zip songs artists)
      else None
  | _ => None
  end.

(** ** Notions used to state the properties *)

(** *** Strings and the normaliser *)

(** The text of [s] before the first occurrence of [sep] (all of [s] when
    there is none). *)
Fixpoint before (sep s : pystr) : pystr :=
  match s with
  | [] => []
  | c :: s' => if startswith sep s then [] else c :: before sep s'
  end.

(** [t] occurs in [s] as a contiguous piece. *)
Definition infix (t s : pystr) : Prop := ∃ a b, s = a ++ t ++ b.

(** What the specification describes for the normaliser: take the first
    delimiter of the list that occurs in the string, cut before its first
    occurrence, trim, and stop. *)
Fixpoint stop_at_first_match (ds : list pystr) (artist_name : pystr) : pystr :=
  match ds with
  | [] => artist_name
  | d :: ds' =>
      if contains d artist_name
      then strip (first (split d artist_name))
      else stop_at_first_match ds' artist_name
  end.

(** *** The batch processor *)

(** The files written, in order: name and rows of every [to_csv] call. *)
Definition to_csv_calls (out : list effect) : list (pystr * list dict) :=
  omap (λ e, match e with ToCsv f rows => Some (f, rows) | _ => None end) out.

(** The batch files are the ones not called like the failure file. *)
Definition saved_batches (out : list effect) : list (pystr * list dict) :=
  filter (λ c, c.1 ≠ failed_filename) (to_csv_calls out).

(** The writes of the failure file. *)
Definition saved_failed (out : list effect) : list (pystr * list dict) :=
  filter (λ c, c.1 = failed_filename) (to_csv_calls out).

(** How the lookup of one row ended. *)
Inductive lookup_result :=
  | Found (features : dict)
  | NoMatch
  | Raised (e : exn).

(** The result of the lookup the loop body makes for [row] from state
    [st]. *)
Definition row_result `{Spotify W} (st : state W) (row : ChartEntry) : lookup_result :=
  match get_track_features (Song row) (clean_artist_name (Artist row)) (sp (pause st)) with
  | (inl e, _) => Raised e
  | (inr (Some features), _) => Found features
  | (inr None, _) => NoMatch
  end.

(** The results of the lookups of a run of the loop, row by row. *)
Fixpoint row_results `{Spotify W} (n : Z) (st : state W) (df : DataRows)
    : list lookup_result :=
  match df with
  | [] => []
  | ir :: df' => row_result st ir.2 :: row_results n (loop_body n st ir) df'
  end.

(** The record a successful row contributes to its batch. *)
Definition enriched_row (row : ChartEntry) (features : dict) : dict :=
  features ∪ to_dict row.

(** The entry a row without a match leaves in the failure accumulator. *)
Definition failed_lookup (row : ChartEntry) : dict :=
  <[py "track_name" := VStr (Song row)]> (<[py "artist_name" := VStr (Artist row)]> ∅).

(** What the rows of a run contribute, in table order: batch rows, failure
    entries, exceptions. *)
Definition enriched (rs : list (ChartEntry * lookup_result)) : list dict :=
  omap (λ x, match x.2 with Found f => Some (enriched_row x.1 f) | _ => None end) rs.

Definition failed (rs : list (ChartEntry * lookup_result)) : list dict :=
  omap (λ x, match x.2 with NoMatch => Some (failed_lookup x.1) | _ => None end) rs.

Definition raised (rs : list (ChartEntry * lookup_result)) : list exn :=
  omap (λ x, match x.2 with Raised e => Some e | _ => None end) rs.

(** The part of the state the batching depends on, and the files written. *)
Record view := View {
  v_batch : list dict;
  v_failed : list dict;
  v_number : Z;
  v_count : Z;
  v_files : list (pystr * list dict)
}.

Definition view_of {W} (st : state W) : view :=
  View (current_batch st) (failed_tracks st) (batch_number st)
    (processed_count st) (to_csv_calls (out st)).

(** The loop body seen on views, given the result of the row's lookup. *)
Definition view_step (n : Z) (v : view) (x : Z * ChartEntry * lookup_result) : view :=
  let '(index, row, r) := x in
  match r with
  | Raised _ => View (v_batch v) (v_failed v) (v_number v) (v_count v + 1) (v_files v)
  | NoMatch =>
      View (v_batch v) (v_failed v ++ [failed_lookup row]) (v_number v)
        (v_count v + 1) (v_files v)
  | Found f =>
      let b := v_batch v ++ [enriched_row row f] in
      if bool_decide (length b = 50%nat) || bool_decide (index = (n - 1)%Z)
      then View [] (v_failed v) (v_number v + 1) (v_count v + 1)
             (v_files v ++ [(batch_filename (v_number v + 1), b)])
      else View b (v_failed v) (v_number v) (v_count v + 1) (v_files v)
  end.

(** File [i] (from 0) is batch number [b0 + 1 + i], and the counter has
    moved once per file. *)
Definition numbered_from (b0 : Z) (v : view) : Prop :=
  (v_files v).*1 = (λ i : nat, batch_filename (b0 + 1 + Z.of_nat i)) <$> seq 0 (length (v_files v)) ∧
  v_number v = (b0 + Z.of_nat (length (v_files v)))%Z.

(** The index of a table built without an explicit one: the row at
    position [i] is labelled [i]. *)
Definition default_index (df : DataRows) : Prop :=
  df.*1 = Z.of_nat <$> seq 0 (length df).

(** The rows and results of a run, without the index labels. *)
Definition rows_of (xs : list (Z * ChartEntry * lookup_result))
    : list (ChartEntry * lookup_result) :=
  (λ x, (x.1.2, x.2)) <$> xs.

(** Written batches hold between 1 and 50 rows, and fewer than 50 rows are
    pending between rows. *)
Definition sizes_ok (v : view) : Prop :=
  Forall (λ c, 1 ≤ length c.2 ≤ 50)%nat (v_files v) ∧ (length (v_batch v) < 50)%nat.

(** All batch files of a run: the ones written in the loop and the final
    one. *)
Definition all_batches (v : view) : list (pystr * list dict) :=
  v_files v ++
  match v_batch v with
  | [] => []
  | _ :: _ => [(batch_filename (v_number v + 1), v_batch v)]
  end.

(** The failure file of a run, when there is one. *)
Definition failure_file (v : view) : list (pystr * list dict) :=
  match v_failed v with
  | [] => []
  | _ :: _ => [(failed_filename, v_failed v)]
  end.

(** The view in which the loop of [main] ends. *)
Definition loop_view `{Spotify W} (sp0 : W) (df : DataRows) : view :=
  fold_left (view_step (Z.of_nat (length df)))
    (zip df (row_results (Z.of_nat (length df)) (init_state sp0) df))
    (View [] [] 51 0 []).

(** Every batch written so far is full and fewer than 50 rows are
    pending. *)
Definition full_batches (v : view) : Prop :=
  Forall (λ c, length c.2 = 50%nat) (v_files v) ∧ (length (v_batch v) < 50)%nat.

(** The shape of the batch files of a run: full batches, then at most one
    batch of 1 to 50 rows. *)
Definition chunked (files : list (pystr * list dict)) : Prop :=
  ∃ full last,
    files = full ++ last ∧
    Forall (λ c, length c.2 = 50%nat) full ∧
    (last = [] ∨ ∃ c, last = [c] ∧ (1 ≤ length c.2 ≤ 50)%nat).

(** Whether a lookup found a track. *)
Definition is_found (r : lookup_result) : bool :=
  match r with Found _ => true | _ => false end.

(** Name and number of rows of each file. *)
Definition file_sizes (files : list (pystr * list dict)) : list (pystr * nat) :=
  (λ c, (c.1, length c.2)) <$> files.

(** *** The genre encoder *)

(** The genre sequence of every row of [df]: the cells of the genre column,
    read with [literal_eval] where they are text, each iterated as the
    binarizer iterates it.  [None] when one of these steps fails. *)
Definition genre_rows `{LiteralEval} (df : DataFrame) (genre_column : pystr)
    : option (list (list pystr)) :=
  match getitem df genre_column with
  | Some (inr cells) =>
      match apply (λ x, match x with VStr s => literal_eval s | _ => inr x end) cells with
      | inr parsed =>
          match iter_all parsed with
          | inr rows => Some rows
          | inl _ => None
          end
      | inl _ => None
      end
  | _ => None
  end.

(** Decoding row [i] of a list of indicator columns: the labels of the
    columns that hold 1 there. *)
Definition decode (ind : DataFrame) (i : nat) : gset pystr :=
  list_to_set
    (omap (λ c, match c.2 !! i with Some (VInt 1) => Some c.1 | _ => None end) ind).

(** The indicator of class [c] for a row with the given labels. *)
Definition indicator (labels : list pystr) (c : pystr) : Z :=
  if bool_decide (c ∈ labels) then 1%Z else 0%Z.

(** The matrix [fit_transform] computes from the label rows. *)
Definition indicator_matrix (rows : list (list pystr)) : list (list Z) :=
  (λ labels, indicator labels <$> classes_ rows) <$> rows.

(** *** Further notions *)

(** The keys of the record [get_track_features] builds. *)
Definition feature_keys : gset pystr :=
  list_to_set (py <$> ["track_id"; "popularity"; "duration_ms"; "album_release_year";
                       "album_cover_url"; "explicit"; "artist_popularity";
                       "artist_genres"]%string).

(** The pauses taken, in order: the argument of every [time.sleep]. *)
Definition slept (out : list effect) : list Z :=
  omap (λ e, match e with Sleep secs => Some secs | _ => None end) out.

(** A name the loop has cut at least once: a prefix of the input without
    its leading whitespace, itself trimmed. *)
Definition cut_of (s t : pystr) : Prop := t `prefix_of` lstrip s ∧ strip t = t.

(** The pauses taken once [c] rows have been attempted: one before each
    row that had a positive multiple of 50 rows before it. *)
Definition paused {W} (st : state W) : Prop :=
  (0 ≤ processed_count st)%Z ∧
  slept (out st) = replicate (Z.to_nat ((processed_count st - 1) / 50)) 30%Z.

(** A cell the binarizer cannot iterate over. *)
Definition not_iterable (v : pyval) : Prop :=
  match v with VList _ | VStr _ => False | _ => True end.

(** A cell that is no text. *)
Definition no_text (v : pyval) : Prop :=
  match v with VStr _ => False | _ => True end.

(** The label a column gets from [rename]. *)
Definition renamed (label : pystr) : pystr :=
  if bool_decide (label = py "title") then py "Song"
  else if bool_decide (label = py "artist") then py "Artist"
  else label.

(** Whether a chart row has both elements the scraper reads. *)
Definition has_both (item : ChartItem) : bool :=
  match title_of_a_story item, a_no_trucate item with
  | Some _, Some _ => true
  | _, _ => false
  end.

(** The trimmed texts of a chart row, empty where the element is missing. *)
Definition title_text (item : ChartItem) : pystr :=
  strip (default [] (title_of_a_story item)).

Definition artist_text (item : ChartItem) : pystr :=
  strip (default [] (a_no_trucate item)).

(** ** Concrete instances of the external interfaces

    Used to run the definitions above on concrete inputs. *)

(** A reader for the text pandas writes for a list of strings, such as
    ['dance pop', 'pop']: brackets, items in single or double quotes
    without escapes, commas, blanks.  Anything else is a [ValueError]. *)
Inductive scan_mode :=
  | AtStart
  | BeforeItem
  | InItem (quote : N) (cur : pystr)
  | AfterItem
  | AtEnd.

Fixpoint scan_list (mode : scan_mode) (acc : list pystr) (s : pystr)
    : option (list pystr) :=
  match s with
  | [] => match mode with AtEnd => Some acc | _ => None end
  | c :: s' =>
      match mode with
      | AtStart => if (c =? 91)%N then scan_list BeforeItem acc s' else None
      | BeforeItem =>
          if (c =? 32)%N then scan_list BeforeItem acc s'
          else if (c =? 93)%N then scan_list AtEnd acc s'
          else if (c =? 39)%N || (c =? 34)%N then scan_list (InItem c []) acc s'
          else None
      | InItem q cur =>
          if (c =? q)%N then scan_list AfterItem (acc ++ [cur]) s'
          else if (c =? 92)%N then None
          else scan_list (InItem q (cur ++ [c])) acc s'
      | AfterItem =>
          if (c =? 32)%N then scan_list AfterItem acc s'
          else if (c =? 44)%N then scan_list BeforeItem acc s'
          else if (c =? 93)%N then scan_list AtEnd acc s'
          else None
      | AtEnd => None
      end
  end.

Definition read_string_list : LiteralEval := λ s,
  match scan_list AtStart [] s with
  | Some l => inr (VList l)
  | None => inl (Exn ValueError (py "malformed node or string"))
  end.

(** A client that answers by the text of the query: a query that mentions
    Timeout fails, one that mentions Unknown finds nothing, any other finds
    one track.  The world counts the calls made. *)
Definition demo_track : Track := {|
  track_id := py "6rqhFgbbKwnb9MLmUQDhG6";
  popularity := 80;
  duration_ms := 200000;
  release_date := py "2019-05-17";
  images := [py "https://i.scdn.co/image/1"];
  explicit := false;
  artists := [py "0du5cEVh5yTK9QJze8zA0C"]
|}.

Definition demo_artist : ArtistInfo := {|
  artist_popularity := 70;
  genres := [py "pop"; py "dance pop"]
|}.

Definition demo_client : Spotify nat := {|
  sp_search q w :=
    (if contains (py "Timeout") q
     then inl (Exn SpotifyException (py "http status: 429"))
     else if contains (py "Unknown") q then inr []
     else inr [demo_track],
     S w);
  sp_artist a w := (inr demo_artist, S w);
  time_sleep secs w := w
|}.

Definition entry (song artist : string) : ChartEntry :=
  {| Song := py song; Artist := py artist; rest := ∅ |}.

(** Three rows that kept the labels 1, 2, 3 they had in a table of four:
    what [df.iloc[1:]] of that table is. *)
Definition sliced_table : DataRows :=
  [(1%Z, entry "Flowers" "Miley Cyrus");
   (2%Z, entry "Kill Bill" "SZA");
   (3%Z, entry "Creepin'" "Metro Boomin, The Weeknd & 21 Savage")].

(** [k] rows labelled [start], [start + 1], ... *)
Definition rows_from (start : Z) (k : nat) : DataRows :=
  imap (λ i row, ((start + Z.of_nat i)%Z, row)) (replicate k (entry "Anti-Hero" "Taylor Swift")).

(** A table with text and list cells in its genre column. *)
Definition genre_table : DataFrame :=
  [(py "Song", [VStr (py "Flowers"); VStr (py "Kill Bill"); VStr (py "Anti-Hero")]);
   (py "artist_genres",
    [VStr (py "['rock', 'pop']"); VList [py "pop"; py "jazz"]; VStr (py "[]")]);
   (py "popularity", [VInt 94; VInt 93; VInt 91])].

Definition genre_table_parsed : DataFrame :=
  [(py "Song", [VStr (py "Flowers"); VStr (py "Kill Bill"); VStr (py "Anti-Hero")]);
   (py "artist_genres",
    [VList [py "rock"; py "pop"]; VList [py "pop"; py "jazz"]; VList []]);
   (py "popularity", [VInt 94; VInt 93; VInt 91])].

Definition genre_table_encoded : DataFrame :=
  genre_table_parsed ++
  [(py "jazz", [VInt 0; VInt 1; VInt 0]);
   (py "pop", [VInt 1; VInt 1; VInt 0]);
   (py "rock", [VInt 1; VInt 0; VInt 0])].

(** *** Further concrete inputs *)

(** The record [demo_client] gives for any track it finds. *)
Definition demo_features : dict :=
  <[py "track_id" := VStr (py "6rqhFgbbKwnb9MLmUQDhG6")]>
  (<[py "popularity" := VInt 80]>
  (<[py "duration_ms" := VInt 200000]>
  (<[py "album_release_year" := VStr (py "2019")]>
  (<[py "album_cover_url" := VStr (py "https://i.scdn.co/image/1")]>
  (<[py "explicit" := VBool false]>
  (<[py "artist_popularity" := VInt 70]>
  (<[py "artist_genres" := VList [py "pop"; py "dance pop"]]> ∅))))))).

(** A track whose album has no image, and a client that finds it for every
    query. *)
Definition bare_track : Track := {|
  track_id := py "3n3Ppam7vgaVa1iaRUc9Lp";
  popularity := 12;
  duration_ms := 181000;
  release_date := py "1967";
  images := [];
  explicit := false;
  artists := [py "0du5cEVh5yTK9QJze8zA0C"]
|}.

Definition bare_client : Spotify nat := {|
  sp_search q w := (inr [bare_track], S w);
  sp_artist a w := (inr demo_artist, S w);
  time_sleep secs w := w
|}.

(** A genre column with a missing value, and one with a text that is no
    list. *)
Definition genre_table_missing : DataFrame :=
  [(py "Song", [VStr (py "Flowers"); VStr (py "Kill Bill")]);
   (py "artist_genres", [VStr (py "['pop']"); VNone])].

Definition genre_table_unreadable : DataFrame :=
  [(py "Song", [VStr (py "Flowers"); VStr (py "Kill Bill")]);
   (py "artist_genres", [VStr (py "['pop']"); VStr (py "r&b, pop")])].

(** A table as the million song subset is read: titles and artists written
    as the text of byte strings. *)
Definition million_table : DataFrame :=
  [(py "title", [VStr (py "b'Soul Deep'"); VStr (py "b'Amor De Cabaret'")]);
   (py "artist", [VStr (py "b'The Box Tops'"); VStr (py "b'Sonora Santanera'")]);
   (py "year", [VInt 1969; VInt 0])].

Definition million_table_no_artist : DataFrame :=
  [(py "title", [VStr (py "b'Soul Deep'"); VStr (py "b'Amor De Cabaret'")]);
   (py "year", [VInt 1969; VInt 0])].

(** Two chart rows with both elements. *)
Definition chart_page : list ChartItem :=
  [{| title_of_a_story := Some (py "  Flowers  ");
      a_no_trucate := Some (py "  Miley Cyrus ") |};
   {| title_of_a_story := Some (py " Kill Bill ");
      a_no_trucate := Some (py " SZA ") |}].

(* ===================================================================== *)
(** * Part II: properties                                                 *)
(* ===================================================================== *)

(** ** Strings *)

Lemma startswith_prefix p s : startswith p s = true ↔ p `prefix_of` s.
Proof.
  revert s. induction p as [|a p IH]; intros s; simpl.
  - split; [intros _; apply prefix_nil | done].
  - destruct s as [|b s].
    + split; [done | intros [k Hk]; discriminate].
    + rewrite andb_true_iff, N.eqb_eq, IH. split.
      * intros [-> Hp]. by apply prefix_cons.
      * intros [k Hk]. injection Hk as -> ->. split; [done | by exists k].
Qed.

Lemma contains_infix d s : contains d s = true ↔ infix d s.
Proof.
  induction s as [|c s IH]; simpl.
  - rewrite orb_false_r, startswith_prefix. split.
    + intros [k ->]. by exists [], k.
    + intros (a & b & Hs). symmetry in Hs.
      apply app_eq_nil in Hs as [-> Hs]. apply app_eq_nil in Hs as [-> _].
      apply prefix_nil.
  - rewrite orb_true_iff, startswith_prefix, IH. split.
    + intros [[k ->] | (a & b & ->)].
      * by exists [], k.
      * by exists (c :: a), b.
    + intros (a & b & Hs). destruct a as [|c' a]; simpl in Hs.
      * left. by exists b.
      * right. injection Hs as -> ->. by exists a, b.
Qed.

Lemma infix_refl s : infix s s.
Proof. exists [], []. by rewrite app_nil_r. Qed.

Lemma infix_trans t u s : infix t u → infix u s → infix t s.
Proof.
  intros (a & b & ->) (a' & b' & ->).
  exists (a' ++ a), (b ++ b'). by rewrite <- !app_assoc.
Qed.

Lemma prefix_infix t s : t `prefix_of` s → infix t s.
Proof. intros [k ->]. by exists [], k. Qed.

Lemma contains_mono d t s : infix t s → contains d t = true → contains d s = true.
Proof. rewrite !contains_infix. intros Hts Hdt. by eapply infix_trans. Qed.

Lemma absent_mono d t s : infix t s → contains d s = false → contains d t = false.
Proof.
  intros Hts Hs. destruct (contains d t) eqn:Ht; [|done].
  by rewrite (contains_mono d t s Hts Ht) in Hs.
Qed.

Lemma lstrip_suffix s : ∃ a, s = a ++ lstrip s.
Proof.
  induction s as [|c s [a IH]]; simpl.
  - by exists [].
  - destruct (isspace c); [|by exists []].
    exists (c :: a). simpl. by f_equal.
Qed.

Lemma strip_infix s : infix (strip s) s.
Proof.
  unfold strip, rstrip.
  destruct (lstrip_suffix s) as [a Ha].
  destruct (lstrip_suffix (reverse (lstrip s))) as [b Hb].
  exists a, (reverse b).
  rewrite <- reverse_app, <- Hb, reverse_involutive. exact Ha.
Qed.

Lemma split_from_head sep cur s :
  head (split_from sep 0 cur s) = Some (cur ++ before sep s).
Proof.
  revert cur. induction s as [|c s IH]; intros cur; simpl.
  - by rewrite app_nil_r.
  - destruct (startswith sep (c :: s)); simpl.
    + by rewrite app_nil_r.
    + rewrite IH. by rewrite <- app_assoc.
Qed.

(** [s.split(sep)[0]] is the text before the first occurrence of [sep]. *)
Lemma first_split sep s : first (split sep s) = before sep s.
Proof. unfold first, split. by rewrite split_from_head. Qed.

Lemma before_prefix sep s : before sep s `prefix_of` s.
Proof.
  induction s as [|c s IH]; simpl; [done|].
  destruct (startswith sep (c :: s)); [apply prefix_nil | by apply prefix_cons].
Qed.

Lemma before_absent sep s : contains sep s = false → before sep s = s.
Proof.
  induction s as [|c s IH]; simpl; [done|].
  intros [H1 H2]%orb_false_iff. rewrite H1. f_equal. by apply IH.
Qed.

(** The separator does not occur in the text before its first occurrence. *)
Lemma before_free sep s : sep ≠ [] → contains sep (before sep s) = false.
Proof.
  intros Hne. induction s as [|c s IH]; simpl.
  - destruct sep; [done | reflexivity].
  - destruct (startswith sep (c :: s)) eqn:Hs; simpl.
    + destruct sep; [done | reflexivity].
    + rewrite IH, orb_false_r.
      destruct (startswith sep (c :: before sep s)) eqn:Hb; [|done].
      apply startswith_prefix in Hb.
      assert (sep `prefix_of` c :: s) as Hp.
      { etrans; [exact Hb|]. apply prefix_cons, before_prefix. }
      apply startswith_prefix in Hp. congruence.
Qed.

(** ** NameNormalizer *)

Lemma delimiters_nonempty : Forall (λ d, d ≠ []) delimiters.
Proof. unfold delimiters. repeat constructor; discriminate. Qed.

Lemma clean_step_absent s d : contains d s = false → clean_step s d = s.
Proof. unfold clean_step. by intros ->. Qed.

Lemma clean_step_present s d :
  contains d s = true → clean_step s d = strip (before d s).
Proof. unfold clean_step. intros ->. by rewrite first_split. Qed.

Lemma clean_step_infix s d : infix (clean_step s d) s.
Proof.
  unfold clean_step. destruct (contains d s); [|apply infix_refl].
  rewrite first_split. eapply infix_trans; [apply strip_infix|].
  apply prefix_infix, before_prefix.
Qed.

Lemma clean_step_free s d : d ≠ [] → contains d (clean_step s d) = false.
Proof.
  intros Hne. unfold clean_step. destruct (contains d s) eqn:Hd; [|done].
  rewrite first_split. eapply absent_mono; [apply strip_infix|].
  by apply before_free.
Qed.

Lemma clean_fold_infix ds s : infix (fold_left clean_step ds s) s.
Proof.
  revert s. induction ds as [|d ds IH]; intros s; simpl; [apply infix_refl|].
  eapply infix_trans; [apply IH | apply clean_step_infix].
Qed.

Lemma clean_fold_absent ds s :
  Forall (λ d, contains d s = false) ds → fold_left clean_step ds s = s.
Proof.
  induction 1 as [|d ds Hd _ IH]; simpl; [done|].
  by rewrite clean_step_absent.
Qed.

Lemma clean_fold_free ds s :
  Forall (λ d, d ≠ []) ds →
  Forall (λ d, contains d (fold_left clean_step ds s) = false) ds.
Proof.
  intros Hne. revert s. induction Hne as [|d ds Hd _ IH]; intros s; simpl.
  - constructor.
  - constructor; [|apply IH].
    eapply absent_mono; [apply clean_fold_infix|]. by apply clean_step_free.
Qed.

(** No token of the list occurs in a normalised name. *)
Lemma clean_artist_name_free s :
  Forall (λ d, contains d (clean_artist_name s) = false) delimiters.
Proof. apply clean_fold_free, delimiters_nonempty. Qed.

(** *** The normaliser does not stop at the first match *)

(** C2 as stated fails: in "A, B & C" the first listed token that occurs is
    the ampersand and the trimmed text before it is "A, B", but the comma,
    listed later, is applied to that text and the function returns "A". *)
Lemma clean_artist_name_applies_later_delimiter :
  contains (py "&") (py "A, B & C") = true ∧
  stop_at_first_match delimiters (py "A, B & C") = py "A, B" ∧
  clean_artist_name (py "A, B & C") = py "A" ∧
  clean_artist_name (py "A, B & C") ≠ stop_at_first_match delimiters (py "A, B & C").
Proof. repeat split; vm_compute; congruence. Qed.

(** C2, amended: when [d] is the first token of the list that occurs in the
    string, the string is cut before the first occurrence of [d] and
    trimmed, and the scan goes on: the tokens listed after [d] are applied,
    in order, to the text already cut.  In the end no token of the list
    occurs in the result. *)
Theorem clean_artist_name_first_match_then_rest (pre post : list pystr) (d s : pystr) :
  delimiters = pre ++ d :: post →
  Forall (λ d', contains d' s = false) pre →
  contains d s = true →
  clean_artist_name s = fold_left clean_step post (strip (first (split d s))) ∧
  Forall (λ d', contains d' (clean_artist_name s) = false) delimiters.
Proof.
  intros Hds Hpre Hd. split.
  - unfold clean_artist_name. rewrite Hds, fold_left_app. simpl.
    rewrite (clean_fold_absent pre s Hpre). unfold clean_step at 2. by rewrite Hd.
  - apply clean_artist_name_free.
Qed.

Lemma clean_artist_name_first_match_then_rest_witness :
  clean_artist_name (py "A, B & C") =
    fold_left clean_step (tail delimiters)
      (strip (first (split (py "&") (py "A, B & C")))) ∧
  Forall (λ d', contains d' (clean_artist_name (py "A, B & C")) = false) delimiters.
Proof.
  apply (clean_artist_name_first_match_then_rest [] (tail delimiters) (py "&")).
  - reflexivity.
  - constructor.
  - vm_compute. reflexivity.
Defined.

(** *** Without a delimiter nothing is trimmed *)

(** C8 as stated fails where it says the result is trimmed: " Adele "
    contains no token and comes back with its blanks. *)
Lemma clean_artist_name_keeps_blanks :
  Forall (λ d, contains d (py " Adele ") = false) delimiters ∧
  clean_artist_name (py " Adele ") = py " Adele " ∧
  strip (py " Adele ") = py "Adele" ∧
  clean_artist_name (py " Adele ") ≠ strip (py " Adele ").
Proof.
  split; [|repeat split; vm_compute; congruence].
  unfold delimiters. repeat constructor.
Qed.

(** C8, amended: a string in which no token of the list occurs is returned
    exactly as it is, surrounding whitespace included. *)
Theorem clean_artist_name_no_delimiter (s : pystr) :
  Forall (λ d, contains d s = false) delimiters →
  clean_artist_name s = s.
Proof. apply clean_fold_absent. Qed.

Lemma clean_artist_name_no_delimiter_witness :
  clean_artist_name (py " Adele ") = py " Adele ".
Proof.
  apply clean_artist_name_no_delimiter.
  unfold delimiters. repeat constructor.
Defined.

(** ** BatchProcessor *)

Section processor.
Context `{Spotify W}.
Implicit Types (st : state W) (row : ChartEntry) (df : DataRows).

Lemma to_csv_calls_app o1 o2 :
  to_csv_calls (o1 ++ o2) = to_csv_calls o1 ++ to_csv_calls o2.
Proof. apply omap_app. Qed.

(** The pause touches the client and the trace only, and writes no file. *)
Lemma view_of_pause st : view_of (pause st) = view_of st.
Proof.
  unfold pause. destruct (_ && _); [|done].
  unfold view_of. simpl. by rewrite to_csv_calls_app, app_nil_r.
Qed.

Lemma pause_fields st :
  current_batch (pause st) = current_batch st ∧
  failed_tracks (pause st) = failed_tracks st ∧
  batch_number (pause st) = batch_number st ∧
  processed_count (pause st) = processed_count st ∧
  to_csv_calls (out (pause st)) = to_csv_calls (out st).
Proof.
  pose proof (view_of_pause st) as Hv. unfold view_of in Hv.
  by injection Hv.
Qed.

(** The loop body refines [view_step]. *)
Lemma view_of_loop_body n st index row :
  view_of (loop_body n st (index, row)) =
  view_step n (view_of st) (index, row, row_result st row).
Proof.
  destruct (pause_fields st) as (Hb & Hf & Hn & Hc & Ho).
  unfold loop_body, row_result, view_step.
  destruct (get_track_features _ _ _) as [[e | [f|]] w]; unfold view_of; simpl.
  - rewrite to_csv_calls_app, app_nil_r. by rewrite Hb, Hf, Hn, Hc, Ho.
  - rewrite Hb. fold (enriched_row row f).
    destruct (bool_decide _ || bool_decide _); simpl.
    + destruct (current_batch st ++ [enriched_row row f]) eqn:Hcur.
      { by destruct (current_batch st). }
      simpl. rewrite to_csv_calls_app. simpl. by rewrite Hf, Hn, Hc, Ho.
    + by rewrite Hf, Hn, Hc, Ho.
  - by rewrite Hb, Hf, Hn, Hc, Ho.
Qed.

Lemma view_of_fold n df st :
  view_of (fold_left (loop_body n) df st) =
  fold_left (view_step n) (zip df (row_results n st df)) (view_of st).
Proof.
  revert st. induction df as [|[index row] df IH]; intros st; [done|].
  cbn [fold_left row_results zip zip_with snd]. by rewrite IH, view_of_loop_body.
Qed.

Lemma row_results_length n st df : length (row_results n st df) = length df.
Proof. revert st. induction df as [|ir df IH]; intros st; simpl; [done|]. by rewrite IH. Qed.

End processor.

(** *** The batching, on views *)

Lemma view_step_rows n v x :
  let v' := view_step n v x in
  concat (v_files v').*2 ++ v_batch v' =
    concat (v_files v).*2 ++ v_batch v ++ enriched (rows_of [x]) ∧
  v_failed v' = v_failed v ++ failed (rows_of [x]) ∧
  v_count v' = (v_count v + 1)%Z.
Proof.
  destruct x as [[index row] [f| |e]]; simpl.
  - destruct (bool_decide _ || bool_decide _); simpl.
    + rewrite fmap_app, concat_app. simpl. by rewrite !app_nil_r.
    + by rewrite app_nil_r.
  - by rewrite !app_nil_r.
  - by rewrite !app_nil_r.
Qed.

Lemma rows_of_cons x xs : rows_of (x :: xs) = rows_of [x] ++ rows_of xs.
Proof. done. Qed.

Lemma enriched_app r1 r2 : enriched (r1 ++ r2) = enriched r1 ++ enriched r2.
Proof. apply omap_app. Qed.

Lemma failed_app r1 r2 : failed (r1 ++ r2) = failed r1 ++ failed r2.
Proof. apply omap_app. Qed.

Lemma raised_app r1 r2 : raised (r1 ++ r2) = raised r1 ++ raised r2.
Proof. apply omap_app. Qed.

(** Every row goes to one place: the batch rows (written or pending), the
    failure accumulator, or nowhere. *)
Lemma view_fold_rows n xs v :
  let v' := fold_left (view_step n) xs v in
  concat (v_files v').*2 ++ v_batch v' =
    concat (v_files v).*2 ++ v_batch v ++ enriched (rows_of xs) ∧
  v_failed v' = v_failed v ++ failed (rows_of xs) ∧
  v_count v' = (v_count v + Z.of_nat (length xs))%Z.
Proof.
  revert v. induction xs as [|x xs IH]; intros v.
  - simpl. rewrite !app_nil_r. split_and!; [done..|lia].
  - cbn [fold_left]. rewrite length_cons.
    destruct (IH (view_step n v x)) as (IH1 & IH2 & IH3).
    destruct (view_step_rows n v x) as (S1 & S2 & S3).
    rewrite rows_of_cons, enriched_app, failed_app.
    split_and!.
    + rewrite IH1, !app_assoc. f_equal. rewrite <- !app_assoc. exact S1.
    + rewrite IH2, S2. by rewrite <- app_assoc.
    + rewrite IH3, S3. lia.
Qed.

Lemma numbered_from_step b0 n v x :
  numbered_from b0 v → numbered_from b0 (view_step n v x).
Proof.
  intros [Hf Hn]. destruct x as [[index row] [f| |e]]; simpl; try done.
  destruct (bool_decide _ || bool_decide _); simpl; [|done].
  split; simpl.
  - rewrite fmap_app, length_app. simpl. rewrite seq_app, fmap_app. simpl.
    rewrite <- Hf. do 3 f_equal. lia.
  - rewrite length_app. simpl. lia.
Qed.

Lemma numbered_from_fold b0 n xs v :
  numbered_from b0 v → numbered_from b0 (fold_left (view_step n) xs v).
Proof.
  revert v. induction xs as [|x xs IH]; intros v Hv; simpl; [done|].
  by apply IH, numbered_from_step.
Qed.

Lemma sizes_ok_step n v x : sizes_ok v → sizes_ok (view_step n v x).
Proof.
  intros [Hf Hb]. destruct x as [[index row] [f| |e]]; simpl; try done.
  destruct (bool_decide (length _ = _)) eqn:Hlen; simpl.
  - apply bool_decide_eq_true in Hlen. split; simpl; [|lia].
    apply Forall_app. split; [done|]. constructor; [|done]. simpl. lia.
  - apply bool_decide_eq_false in Hlen. rewrite length_app in Hlen. simpl in Hlen.
    destruct (bool_decide _); simpl.
    + split; simpl; [|lia]. apply Forall_app. split; [done|].
      constructor; [|done]. simpl. rewrite length_app. simpl. lia.
    + split; simpl; [done|]. rewrite length_app. simpl. lia.
Qed.

Lemma sizes_ok_fold n xs v : sizes_ok v → sizes_ok (fold_left (view_step n) xs v).
Proof.
  revert v. induction xs as [|x xs IH]; intros v Hv; simpl; [done|].
  by apply IH, sizes_ok_step.
Qed.

(** *** File names *)

Lemma py_inj a b : py a = py b → a = b.
Proof.
  unfold py. intros Heq.
  rewrite <- (string_of_list_ascii_of_string a), <- (string_of_list_ascii_of_string b).
  f_equal. revert Heq. generalize (list_ascii_of_string a) (list_ascii_of_string b).
  induction l as [|x l IH]; intros [|y l']; simpl; try done.
  intros [= Hxy Hl]. f_equal; [|by apply IH].
  by rewrite <- (ascii_N_embedding x), <- (ascii_N_embedding y), Hxy.
Qed.

Lemma str_of_Z_inj a b : str_of_Z a = str_of_Z b → a = b.
Proof.
  unfold str_of_Z. intros Heq%py_inj. apply DecimalZ.to_int_inj.
  assert (∀ z, NilZero.int_of_string (NilZero.string_of_int (Z.to_int z)) =
               Some (Z.to_int z)) as Hisi.
  { intros z. apply NilZero.isi; intros Hz;
      pose proof (DecimalZ.to_of (Z.to_int z)) as Hn;
      rewrite DecimalZ.of_to, Hz in Hn; discriminate. }
  apply (f_equal NilZero.int_of_string) in Heq. rewrite !Hisi in Heq. congruence.
Qed.

(** Distinct batch numbers give distinct files. *)
Lemma batch_filename_inj a b : batch_filename a = batch_filename b → a = b.
Proof.
  unfold batch_filename. intros Heq.
  apply app_inv_head in Heq. apply app_inv_head in Heq.
  apply app_inv_tail in Heq. by apply str_of_Z_inj.
Qed.

Lemma batch_filename_not_failed n : batch_filename n ≠ failed_filename.
Proof.
  unfold batch_filename, failed_filename. intros Heq.
  apply app_inv_head in Heq. vm_compute in Heq. discriminate.
Qed.

(** *** The whole run *)

Lemma rows_of_zip (df : DataRows) (rs : list lookup_result) :
  rows_of (zip df rs) = zip df.*2 rs.
Proof.
  revert rs. induction df as [|[i r] df IH]; intros [|x rs]; simpl; try done.
  unfold rows_of in IH. by rewrite IH.
Qed.

Lemma numbered_names b0 v :
  numbered_from b0 v → Forall (λ c, c.1 ≠ failed_filename) (v_files v).
Proof.
  intros [Hf _]. apply Forall_fmap with (f := fst) (P := λ f, f ≠ failed_filename).
  rewrite Hf. apply Forall_fmap, Forall_forall. intros i _. apply batch_filename_not_failed.
Qed.

Lemma all_batches_names b0 v :
  numbered_from b0 v → Forall (λ c, c.1 ≠ failed_filename) (all_batches v).
Proof.
  intros Hv. apply Forall_app. split; [by eapply numbered_names|].
  destruct (v_batch v); constructor; [|done]. apply batch_filename_not_failed.
Qed.

Lemma filter_all {A} (P : A → Prop) `{!∀ x, Decision (P x)} (l : list A) :
  Forall P l → filter P l = l.
Proof.
  induction 1 as [|x l Hx _ IH]; [done|].
  rewrite filter_cons_True by done. by rewrite IH.
Qed.

Lemma filter_none {A} (P : A → Prop) `{!∀ x, Decision (P x)} (l : list A) :
  Forall (λ x, ¬ P x) l → filter P l = [].
Proof.
  induction 1 as [|x l Hx _ IH]; [done|].
  by rewrite filter_cons_False.
Qed.

Section run.
Context `{Spotify W}.
Implicit Types (st : state W) (row : ChartEntry) (df : DataRows).

Lemma view_of_main_loop sp0 df :
  view_of (main_loop df (init_state sp0)) = loop_view sp0 df.
Proof. unfold main_loop, loop_view. by rewrite view_of_fold. Qed.

Lemma to_csv_calls_main sp0 df :
  to_csv_calls (out (main sp0 df)) =
  all_batches (loop_view sp0 df) ++ failure_file (loop_view sp0 df).
Proof.
  rewrite <- view_of_main_loop. unfold main.
  generalize (main_loop df (init_state sp0)). intros st.
  unfold all_batches, failure_file, save_failed, flush_final, view_of. simpl.
  destruct (current_batch st) eqn:Hb; simpl;
    destruct (failed_tracks st) eqn:Hf; simpl;
    rewrite ?to_csv_calls_app; simpl; by rewrite ?app_nil_r, <- ?app_assoc.
Qed.

Lemma main_fields sp0 df :
  failed_tracks (main sp0 df) = v_failed (loop_view sp0 df) ∧
  batch_number (main sp0 df) =
    (51 + Z.of_nat (length (all_batches (loop_view sp0 df))))%Z ∧
  numbered_from 51 (loop_view sp0 df).
Proof.
  assert (numbered_from 51 (loop_view sp0 df)) as Hnum.
  { apply numbered_from_fold. by split. }
  split_and!; [| |done].
  - rewrite <- view_of_main_loop. unfold main, save_failed, flush_final.
    generalize (main_loop df (init_state sp0)). intros st.
    destruct (current_batch st) eqn:Hb; simpl;
      destruct (failed_tracks st) eqn:Hf; simpl; by rewrite ?Hf.
  - destruct Hnum as [_ Hn]. revert Hn. rewrite <- view_of_main_loop.
    unfold main, save_failed, flush_final, all_batches.
    generalize (main_loop df (init_state sp0)). intros st. simpl. intros Hn.
    rewrite length_app.
    destruct (current_batch st) eqn:Hb; simpl;
      destruct (failed_tracks st) eqn:Hf; simpl; lia.
Qed.

Lemma saved_batches_main sp0 df :
  saved_batches (out (main sp0 df)) = all_batches (loop_view sp0 df).
Proof.
  unfold saved_batches. rewrite to_csv_calls_main, filter_app.
  destruct (main_fields sp0 df) as (_ & _ & Hnum).
  rewrite filter_all by (by eapply all_batches_names).
  rewrite filter_none, app_nil_r; [done|].
  unfold failure_file. destruct (v_failed _); constructor; [|done]. by intros [].
Qed.

Lemma saved_failed_main sp0 df :
  saved_failed (out (main sp0 df)) = failure_file (loop_view sp0 df).
Proof.
  unfold saved_failed. rewrite to_csv_calls_main, filter_app.
  destruct (main_fields sp0 df) as (_ & _ & Hnum).
  rewrite filter_none; [|].
  - simpl. apply filter_all. unfold failure_file.
    destruct (v_failed _); constructor; done.
  - eapply Forall_impl; [by eapply all_batches_names|]. intros c Hc. exact Hc.
Qed.

Lemma all_batches_rows v : concat (all_batches v).*2 = concat (v_files v).*2 ++ v_batch v.
Proof.
  unfold all_batches. rewrite fmap_app, concat_app.
  destruct (v_batch v); simpl; by rewrite ?app_nil_r.
Qed.

End run.

Lemma outcome_count (rs : list (ChartEntry * lookup_result)) :
  (length (enriched rs) + length (failed rs) + length (raised rs) = length rs)%nat.
Proof.
  induction rs as [|[row [f| |e]] rs IH]; simpl; [done|..];
    unfold enriched, failed, raised in *; simpl; lia.
Qed.

Lemma all_batches_numbered b0 v :
  numbered_from b0 v →
  (all_batches v).*1 =
    (λ i : nat, batch_filename (b0 + 1 + Z.of_nat i)) <$> seq 0 (length (all_batches v)).
Proof.
  intros [Hf Hn]. unfold all_batches. destruct (v_batch v).
  - by rewrite !app_nil_r.
  - rewrite fmap_app, length_app. simpl. rewrite seq_app, fmap_app. simpl.
    rewrite <- Hf, Hn. do 3 f_equal. lia.
Qed.

Section claims.
Context `{Spotify W}.
Implicit Types (st : state W) (row : ChartEntry) (df : DataRows).

(** The rows of the batch files and the failure accumulator of a run. *)
Lemma main_rows (sp0 : W) df :
  let st := main sp0 df in
  let rs := zip df.*2 (row_results (Z.of_nat (length df)) (init_state sp0) df) in
  concat (saved_batches (out st)).*2 = enriched rs ∧ failed_tracks st = failed rs.
Proof.
  intros st rs. unfold st. rewrite saved_batches_main, all_batches_rows.
  destruct (main_fields sp0 df) as (-> & _ & _).
  unfold loop_view.
  destruct (view_fold_rows (Z.of_nat (length df))
              (zip df (row_results (Z.of_nat (length df)) (init_state sp0) df))
              (View [] [] 51 0 [])) as (H1 & H2 & _).
  simpl in H1, H2. rewrite rows_of_zip in H1, H2. by rewrite H1, H2.
Qed.

(** C1: every row of the table has one outcome.  With [rs] the rows paired
    with the results of their lookups, the rows of all batch files, in the
    order written, are exactly the enriched records of the rows whose lookup
    found a track; the failure accumulator (and the failure file, written
    when it is not empty) holds exactly the entries of the rows without a
    match; a row whose lookup raised is in neither.  So a row is never in
    both, never in two batches, and the three kinds add up to the input. *)
Theorem main_one_outcome_per_row (sp0 : W) df :
  let st := main sp0 df in
  let rs := zip df.*2 (row_results (Z.of_nat (length df)) (init_state sp0) df) in
  length rs = length df ∧
  concat (saved_batches (out st)).*2 = enriched rs ∧
  failed_tracks st = failed rs ∧
  saved_failed (out st) =
    match failed rs with [] => [] | _ :: _ => [(failed_filename, failed rs)] end ∧
  (length (enriched rs) + length (failed rs) + length (raised rs) = length df)%nat ∧
  ∀ i row r, rs !! i = Some (row, r) →
    match r with
    | Found f =>
        concat (saved_batches (out st)).*2 !! length (enriched (take i rs)) =
          Some (enriched_row row f)
    | NoMatch =>
        failed_tracks st !! length (failed (take i rs)) = Some (failed_lookup row)
    | Raised _ =>
        enriched (take (S i) rs) = enriched (take i rs) ∧
        failed (take (S i) rs) = failed (take i rs)
    end.
Proof.
  intros st rs.
  assert (length rs = length df) as Hlen.
  { unfold rs. rewrite length_zip_with, length_fmap, row_results_length. lia. }
  destruct (main_rows sp0 df) as [Hb Hf]. fold st rs in Hb, Hf.
  split_and!; try done.
  - unfold st. rewrite saved_failed_main. unfold failure_file.
    destruct (main_fields sp0 df) as (<- & _ & _). fold st. by rewrite Hf.
  - rewrite <- Hlen. apply outcome_count.
  - intros i row r Hi. rewrite Hb, Hf.
    pose proof (take_drop_middle rs i (row, r) Hi) as Hmid.
    destruct r as [f| |e].
    + assert (enriched rs = enriched (take i rs) ++
                enriched_row row f :: enriched (drop (S i) rs)) as ->.
      { by rewrite <- Hmid at 1; rewrite enriched_app. }
      by rewrite list_lookup_middle.
    + assert (failed rs = failed (take i rs) ++
                failed_lookup row :: failed (drop (S i) rs)) as ->.
      { by rewrite <- Hmid at 1; rewrite failed_app. }
      by rewrite list_lookup_middle.
    + rewrite (take_S_r rs i _ Hi), enriched_app, failed_app. simpl.
      by rewrite !app_nil_r.
Qed.

(** Closes the case of a turn of the loop that writes no file. *)
Local Ltac no_new_file :=
  exists []; rewrite app_nil_r; split_and!; [done | simpl; lia | simpl; lia].

(** The counter moves with the files, not with the rows: a turn of the loop
    writes at most one file and adds to the counter the number of files it
    wrote. *)
Lemma loop_body_counter n st ir :
  ∃ new, to_csv_calls (out (loop_body n st ir)) = to_csv_calls (out st) ++ new ∧
         batch_number (loop_body n st ir) = (batch_number st + Z.of_nat (length new))%Z ∧
         (length new ≤ 1)%nat.
Proof.
  destruct ir as [index row].
  assert (to_csv_calls (out (loop_body n st (index, row))) =
          v_files (view_step n (view_of st) (index, row, row_result st row))) as ->.
  { by rewrite <- view_of_loop_body. }
  assert (batch_number (loop_body n st (index, row)) =
          v_number (view_step n (view_of st) (index, row, row_result st row))) as ->.
  { by rewrite <- view_of_loop_body. }
  unfold view_step.
  destruct (row_result st row) as [f| |e];
    [destruct (bool_decide _ || bool_decide _)|..]; cbn [v_files v_number view_of].
  - eexists [_]. split_and!; [done|simpl; lia|simpl; lia].
  - no_new_file.
  - no_new_file.
  - no_new_file.
Qed.

(** C4: the counter starts at 51; the batch file written as number [i]
    (from 0) is called by batch number [51 + 1 + i], so the numbers go up one
    by one from 52; the counter ends at 51 plus the number of batch files,
    and each turn of the loop moves it by the number of files that turn
    wrote (none or one), whatever the number of rows. *)
Theorem batch_numbers_consecutive (sp0 : W) df :
  let st := main sp0 df in
  let files := saved_batches (out st) in
  batch_number (init_state sp0) = 51%Z ∧
  files.*1 = (λ i : nat, batch_filename (51 + 1 + Z.of_nat i)) <$> seq 0 (length files) ∧
  batch_number st = (51 + Z.of_nat (length files))%Z ∧
  (∀ c, files !! 0%nat = Some c → c.1 = py "../data/batches/songs_batch_52.csv") ∧
  (∀ n st' ir, ∃ new,
      to_csv_calls (out (loop_body n st' ir)) = to_csv_calls (out st') ++ new ∧
      batch_number (loop_body n st' ir) = (batch_number st' + Z.of_nat (length new))%Z ∧
      (length new ≤ 1)%nat).
Proof.
  intros st files. unfold files, st. rewrite saved_batches_main.
  destruct (main_fields sp0 df) as (_ & Hn & Hnum).
  pose proof (all_batches_numbered 51 _ Hnum) as Hnames.
  split_and!; [done|done|done| |apply loop_body_counter].
  intros [f rows] Hc. simpl.
  assert ((all_batches (loop_view sp0 df)).*1 !! 0%nat = Some f) as Hf.
  { by rewrite list_lookup_fmap, Hc. }
  rewrite Hnames in Hf. destruct (all_batches (loop_view sp0 df)); [done|].
  simpl in Hf. by injection Hf as <-.
Qed.


(** C9: when the search for a row finds nothing, the entry added to the
    failure accumulator carries the title and the artist string of the row
    as they are in the table, although the search was made with the
    normalised artist; when a delimiter occurs in the artist string the two
    differ. *)
Theorem failed_lookup_keeps_raw_artist n st index row w :
  sp_search (py "track:" ++ Song row ++ py " artist:" ++ clean_artist_name (Artist row))
    (sp (pause st)) = (inr [], w) →
  failed_tracks (loop_body n st (index, row)) =
    failed_tracks st ++
      [<[py "track_name" := VStr (Song row)]>
         (<[py "artist_name" := VStr (Artist row)]> ∅)] ∧
  (Exists (λ d, contains d (Artist row) = true) delimiters →
   VStr (Artist row) ≠ VStr (clean_artist_name (Artist row))).
Proof.
  intros Hsearch. split.
  - destruct (pause_fields st) as (_ & Hf & _).
    unfold loop_body, get_track_features, mbind, Call_bind. rewrite Hsearch.
    simpl. by rewrite Hf.
  - intros Hex Heq. injection Heq as Heq.
    apply Exists_exists in Hex as (d & Hd & Hin).
    pose proof (clean_artist_name_free (Artist row)) as Hfree.
    rewrite Forall_forall in Hfree. specialize (Hfree d Hd).
    rewrite <- Heq in Hfree. congruence.
Qed.

End claims.

(** *** Tables with the default index

    When the row at position [i] is labelled [i], the test
    [index == len(df) - 1] holds at the last row and nowhere else, and the
    batches come out as chunks of 50. *)

Lemma full_batches_step n v x :
  x.1.1 ≠ (n - 1)%Z → full_batches v → full_batches (view_step n v x).
Proof.
  intros Hx [Hf Hb]. destruct x as [[index row] [f| |e]]; simpl in *; try done.
  rewrite (bool_decide_eq_false_2 (index = _)) by done. rewrite orb_false_r.
  case_bool_decide as Hlen; simpl.
  - split; simpl; [|lia]. apply Forall_app. split; [done|]. by constructor.
  - split; simpl; [done|]. rewrite length_app in *. simpl in *. lia.
Qed.

Lemma full_batches_fold n xs v :
  Forall (λ x, x.1.1 ≠ (n - 1)%Z) xs → full_batches v →
  full_batches (fold_left (view_step n) xs v).
Proof.
  intros Hxs. revert v. induction Hxs as [|x xs Hx _ IH]; intros v Hv; simpl; [done|].
  by apply IH, full_batches_step.
Qed.

Lemma view_fold_default (xs : list (Z * ChartEntry * lookup_result)) b0 :
  (λ x, x.1.1) <$> xs = Z.of_nat <$> seq 0 (length xs) →
  chunked (all_batches (fold_left (view_step (Z.of_nat (length xs))) xs (View [] [] b0 0 []))).
Proof.
  destruct xs as [|x0 xs0] using rev_ind.
  { intros _. exists [], []. simpl. split_and!; [done|constructor|by left]. }
  clear IHxs0. rewrite length_app, fmap_app, seq_app, fmap_app. simpl.
  intros [Hidx Hlast]%app_inj_1; [|by rewrite !length_fmap, length_seq].
  rewrite fold_left_app. simpl.
  set (n := Z.of_nat (length xs0 + 1)).
  assert (full_batches (fold_left (view_step n) xs0 (View [] [] b0 0 []))) as [Hf Hb].
  { apply full_batches_fold; [|split; [constructor|simpl; lia]].
    apply Forall_fmap with (f := λ x, x.1.1) (P := λ i, i ≠ (n - 1)%Z).
    rewrite Hidx. apply Forall_fmap, Forall_forall.
    intros i Hi%elem_of_seq. simpl. unfold n. lia. }
  revert Hf Hb. generalize (fold_left (view_step n) xs0 (View [] [] b0 0 [])). intros v Hf Hb.
  destruct x0 as [[index row] r]. simpl in Hlast. injection Hlast as Hindex.
  unfold view_step, all_batches. destruct r as [f| |e]; simpl.
  - rewrite (bool_decide_eq_true_2 (index = _)) by (unfold n; lia).
    rewrite orb_true_r. simpl. rewrite app_nil_r.
    eexists (v_files v), [_]. split_and!; [done|done|].
    right. eexists. split; [done|]. simpl. rewrite length_app. simpl. lia.
  - destruct (v_batch v) as [|d b] eqn:Hbv.
    + exists (v_files v), []. split_and!; [done|done|by left].
    + eexists (v_files v), [_]. split_and!; [done|done|].
      right. eexists. split; [done|]. simpl in *. lia.
  - destruct (v_batch v) as [|d b] eqn:Hbv.
    + exists (v_files v), []. split_and!; [done|done|by left].
    + eexists (v_files v), [_]. split_and!; [done|done|].
      right. eexists. split; [done|]. simpl in *. lia.
Qed.

Lemma length_concat_full (full : list (pystr * list dict)) :
  Forall (λ c, length c.2 = 50%nat) full →
  length (concat full.*2) = (50 * length full)%nat.
Proof.
  induction 1 as [|c full Hc _ IH]; [done|].
  rewrite fmap_cons, length_cons. cbn [concat]. rewrite length_app, IH, Hc. lia.
Qed.

(** A chunked list of files holding [S] rows in all has [ceil(S / 50)]
    files, each of 1 to 50 rows, and only the last can be short. *)
Lemma chunked_count files :
  chunked files →
  length files = ((length (concat files.*2) + 49) / 50)%nat ∧
  Forall (λ c, 1 ≤ length c.2 ≤ 50)%nat files ∧
  (∀ i c, files !! i = Some c → (S i < length files)%nat → length c.2 = 50%nat).
Proof.
  intros (full & last & -> & Hfull & Hlast).
  pose proof (length_concat_full full Hfull) as Hlen.
  split_and!.
  - rewrite fmap_app, concat_app, !length_app, Hlen.
    generalize (length full). intros k.
    destruct Hlast as [-> | (c & -> & Hc)].
    + change (k + 0 = (50 * k + 0 + 49) / 50)%nat.
      apply Nat.div_unique with (r := 49%nat); lia.
    + rewrite fmap_cons. cbn [fmap list_fmap concat length]. rewrite app_nil_r.
      apply Nat.div_unique with (r := (length c.2 - 1)%nat); lia.
  - apply Forall_app. split.
    + eapply Forall_impl; [exact Hfull|]. intros c Hc. simpl in Hc. lia.
    + destruct Hlast as [-> | (c & -> & Hc)]; [constructor|].
      constructor; [done|constructor].
  - intros i c Hi Hlt.
    assert (i < length full)%nat as Hi'.
    { rewrite length_app in Hlt.
      destruct Hlast as [-> | (c' & -> & _)]; simpl in Hlt; lia. }
    rewrite lookup_app_l in Hi by done.
    by eapply (Forall_lookup_1 _ _ _ _ Hfull).
Qed.

Section default.
Context `{Spotify W}.
Implicit Types (df : DataRows).

Lemma zip_index df (rs : list lookup_result) :
  length rs = length df → (λ x, x.1.1) <$> zip df rs = df.*1.
Proof.
  revert rs. induction df as [|[i r] df IH]; intros [|x rs] Hlen; simpl in *; try done.
  f_equal. apply IH. lia.
Qed.

(** For a table with the default index the number of batch files is
    [ceil(S / 50)], [S] being the number of rows whose lookup found a track;
    every file holds 1 to 50 rows and only the last can hold fewer
    than 50. *)
Lemma main_default_index_batches (sp0 : W) df :
  default_index df →
  let files := saved_batches (out (main sp0 df)) in
  let rs := zip df.*2 (row_results (Z.of_nat (length df)) (init_state sp0) df) in
  length files = ((length (enriched rs) + 49) / 50)%nat ∧
  Forall (λ c, 1 ≤ length c.2 ≤ 50)%nat files ∧
  (∀ i c, files !! i = Some c → (S i < length files)%nat → length c.2 = 50%nat).
Proof.
  intros Hdef files rs.
  assert (chunked files) as Hch.
  { unfold files. rewrite saved_batches_main. unfold loop_view.
    set (xs := zip df (row_results (Z.of_nat (length df)) (init_state sp0) df)).
    assert (length xs = length df) as Hlen.
    { unfold xs. rewrite length_zip_with, row_results_length. lia. }
    rewrite <- Hlen. apply view_fold_default.
    unfold xs. rewrite zip_index by apply row_results_length.
    rewrite Hdef. f_equal. f_equal. unfold xs in Hlen. by rewrite Hlen. }
  destruct (chunked_count files Hch) as (Hn & Hsz & Hfull).
  split_and!; [|done|done].
  rewrite Hn. unfold files.
  by destruct (main_rows sp0 df) as (-> & _).
Qed.

End default.

(** ** GenreEncoder *)

(** *** The order of labels *)

Lemma str_leb_total a b : str_leb a b = true ∨ str_leb b a = true.
Proof.
  revert b. induction a as [|x a IH]; intros [|y b]; simpl; auto.
  destruct (N.ltb_spec x y) as [Hxy|Hxy]; simpl; [auto|].
  destruct (N.ltb_spec y x) as [Hyx|Hyx]; simpl; [auto|].
  assert (x = y) as -> by lia. rewrite N.eqb_refl. simpl. apply IH.
Qed.

Lemma str_leb_trans a b c :
  str_leb a b = true → str_leb b c = true → str_leb a c = true.
Proof.
  revert b c. induction a as [|x a IH]; intros [|y b] [|z c]; simpl; try done.
  rewrite !orb_true_iff, !andb_true_iff, !N.ltb_lt, !N.eqb_eq.
  intros [Hxy | [-> Hab]] [Hyz | [-> Hbc]].
  - left. lia.
  - by left.
  - by left.
  - right. split; [done|]. by eapply IH.
Qed.

Lemma str_leb_antisym a b : str_leb a b = true → str_leb b a = true → a = b.
Proof.
  revert b. induction a as [|x a IH]; intros [|y b]; simpl; try done.
  rewrite !orb_true_iff, !andb_true_iff, !N.ltb_lt, !N.eqb_eq.
  intros [Hxy | [-> Hab]] [Hyx | [Heq Hba]]; try lia.
  f_equal. by apply IH.
Qed.

#[global] Instance str_le_total : Total str_le.
Proof. intros a b. apply str_leb_total. Qed.

#[global] Instance str_le_trans : Transitive str_le.
Proof. intros a b c. apply str_leb_trans. Qed.

#[global] Instance str_le_antisym : AntiSymm (=) str_le.
Proof. intros a b. apply str_leb_antisym. Qed.

(** *** The classes *)

Lemma elem_of_concat (rows : list (list pystr)) c :
  c ∈ concat rows ↔ ∃ labels, labels ∈ rows ∧ c ∈ labels.
Proof.
  induction rows as [|l rows IH]; simpl.
  - split; [by intros ?%elem_of_nil | by intros (? & ?%elem_of_nil & _)].
  - rewrite elem_of_app, IH. split.
    + intros [Hc | (l' & Hl' & Hc)].
      * exists l. split; [apply elem_of_cons; by left | done].
      * exists l'. split; [apply elem_of_cons; by right | done].
    + intros (l' & [-> | Hl']%elem_of_cons & Hc); [by left|].
      right. by exists l'.
Qed.

Lemma elem_of_classes rows c :
  c ∈ classes_ rows ↔ ∃ labels, labels ∈ rows ∧ c ∈ labels.
Proof.
  unfold classes_. rewrite merge_sort_Permutation, elem_of_elements, elem_of_list_to_set.
  apply elem_of_concat.
Qed.

Lemma classes_sorted rows : StronglySorted str_le (classes_ rows).
Proof. apply StronglySorted_merge_sort; apply _. Qed.

Lemma classes_NoDup rows : NoDup (classes_ rows).
Proof. unfold classes_. rewrite merge_sort_Permutation. apply NoDup_elements. Qed.

(** The classes depend on the labels that occur, not on their order or
    number. *)
Lemma classes_same_members rows1 rows2 :
  Forall2 (λ a b : list pystr, ∀ c, c ∈ a ↔ c ∈ b) rows1 rows2 →
  classes_ rows1 = classes_ rows2.
Proof.
  intros Hrows. unfold classes_. f_equal. f_equal.
  apply set_eq. intros c. rewrite !elem_of_list_to_set, !elem_of_concat.
  induction Hrows as [|a b rows1 rows2 Hab _ IH].
  - done.
  - split; intros (l & [->|Hl]%elem_of_cons & Hc).
    + exists b. split; [apply elem_of_cons; by left | by apply Hab].
    + destruct (proj1 IH) as (l' & ? & ?); [by exists l|].
      exists l'. split; [apply elem_of_cons; by right | done].
    + exists a. split; [apply elem_of_cons; by left | by apply Hab].
    + destruct (proj2 IH) as (l' & ? & ?); [by exists l|].
      exists l'. split; [apply elem_of_cons; by right | done].
Qed.

(** *** The indicator columns *)

Lemma DataFrame_of_names matrix (columns : list pystr) :
  (DataFrame_of matrix columns).*1 = columns.
Proof.
  apply list_eq. intros j. unfold DataFrame_of.
  rewrite list_lookup_fmap, list_lookup_imap. by destruct (columns !! j).
Qed.

Lemma nth_fmap_lookup {A} (f : A → Z) (l : list A) j x :
  l !! j = Some x → nth j (f <$> l) 0%Z = f x.
Proof.
  revert j. induction l as [|y l IH]; intros [|j]; simpl; try done.
  - by intros [= ->].
  - apply IH.
Qed.

(** Row [i] of indicator column [j] is 1 when row [i] has class [j] and 0
    when it has not. *)
Lemma indicator_cell rows i j labels (c : pystr * list pyval) :
  rows !! i = Some labels →
  DataFrame_of (indicator_matrix rows) (classes_ rows) !! j = Some c →
  classes_ rows !! j = Some c.1 ∧ c.2 !! i = Some (VInt (indicator labels c.1)).
Proof.
  intros Hi Hj. unfold DataFrame_of in Hj.
  apply list_lookup_imap_Some in Hj as (g & Hg & ->). simpl. split; [done|].
  unfold indicator_matrix. rewrite !list_lookup_fmap, Hi. simpl.
  by rewrite (nth_fmap_lookup _ _ _ _ Hg).
Qed.

Lemma indicator_length rows (c : pystr * list pyval) :
  c ∈ DataFrame_of (indicator_matrix rows) (classes_ rows) → length c.2 = length rows.
Proof.
  intros (j & Hj)%list_elem_of_lookup. unfold DataFrame_of in Hj.
  apply list_lookup_imap_Some in Hj as (g & Hg & ->). simpl.
  unfold indicator_matrix. by rewrite !length_fmap.
Qed.

(** Decoding a row of the indicator columns gives back the set of its
    labels. *)
Lemma decode_indicator rows i labels :
  rows !! i = Some labels →
  decode (DataFrame_of (indicator_matrix rows) (classes_ rows)) i = list_to_set labels.
Proof.
  intros Hi. apply set_eq. intros x. unfold decode.
  rewrite !elem_of_list_to_set, list_elem_of_omap. split.
  - intros (c & (j & Hj)%list_elem_of_lookup & Hx).
    destruct (indicator_cell rows i j labels c Hi Hj) as [_ Hcell].
    rewrite Hcell in Hx. unfold indicator in Hx.
    case_bool_decide as Hin; [|done]. by injection Hx as <-.
  - intros Hx.
    assert (x ∈ classes_ rows) as (j & Hj)%list_elem_of_lookup.
    { apply elem_of_classes. exists labels. split; [|done].
      by eapply list_elem_of_lookup_2. }
    assert (DataFrame_of (indicator_matrix rows) (classes_ rows) !! j =
            Some (x, (λ r, VInt (nth j r 0%Z)) <$> indicator_matrix rows)) as Hc.
    { unfold DataFrame_of. by rewrite list_lookup_imap, Hj. }
    eexists. split; [by eapply list_elem_of_lookup_2|].
    destruct (indicator_cell rows i j labels _ Hi Hc) as [_ Hcell].
    rewrite Hcell. unfold indicator. simpl. by rewrite bool_decide_eq_true_2.
Qed.

Lemma indicator_matrix_same_members rows1 rows2 :
  Forall2 (λ a b : list pystr, ∀ c, c ∈ a ↔ c ∈ b) rows1 rows2 →
  indicator_matrix rows1 = indicator_matrix rows2.
Proof.
  intros Hrows. unfold indicator_matrix.
  rewrite (classes_same_members rows1 rows2 Hrows).
  generalize (classes_ rows2). intros classes.
  induction Hrows as [|a b rows1 rows2 Hab _ IH]; simpl; [done|].
  f_equal; [|done]. apply list_fmap_ext. intros _ c _.
  unfold indicator. by rewrite (bool_decide_ext _ _ (Hab c)).
Qed.

(** *** The table *)

Lemma setitem_length df key cells : length (setitem df key cells) = length df.
Proof. unfold setitem. by rewrite length_fmap. Qed.

Lemma setitem_lookup df key cells k :
  setitem df key cells !! k =
  (λ c : pystr * list pyval, if bool_decide (c.1 = key) then (c.1, cells) else c) <$> df !! k.
Proof. unfold setitem. by rewrite list_lookup_fmap. Qed.

Section encoder.
Context `{LiteralEval}.

(** What a returning call has computed on the way. *)
Lemma encode_genres_returns df genre_column result df' :
  encode_genres df genre_column = Some (inr result, df') →
  ∃ cells parsed rows,
    getitem df genre_column = Some (inr cells) ∧
    apply (λ x, match x with VStr s => literal_eval s | _ => inr x end) cells = inr parsed ∧
    iter_all parsed = inr rows ∧
    df' = setitem df genre_column parsed ∧
    result = df' ++ DataFrame_of (indicator_matrix rows) (classes_ rows).
Proof.
  unfold encode_genres, fit_transform.
  destruct (getitem df genre_column) as [[e|cells]|]; [done| |done].
  destruct (apply _ cells) as [e|parsed] eqn:Hp; [done|].
  destruct (iter_all parsed) as [e|rows] eqn:Hr; [done|].
  intros [= <- <-]. exists cells, parsed, rows. split_and!; done.
Qed.

Lemma genre_rows_returns df genre_column result df' :
  encode_genres df genre_column = Some (inr result, df') →
  ∃ rows, genre_rows df genre_column = Some rows ∧
          length df' = length df ∧
          drop (length df) result = DataFrame_of (indicator_matrix rows) (classes_ rows).
Proof.
  intros (cells & parsed & rows & Hg & Hp & Hr & -> & ->)%encode_genres_returns.
  exists rows. unfold genre_rows. rewrite Hg, Hp, Hr. split_and!; [done|apply setitem_length|].
  rewrite drop_app_length'; [done|]. symmetry. apply setitem_length.
Qed.

(** C5: in the table [encode_genres] returns, the columns after the
    original ones are the indicator columns.  Their labels are the distinct
    genre labels of all rows in sorted order; the cell of a row in the column
    of a label is 1 when the label is in the row's genre sequence and 0 when
    it is not; reading, for a row, the labels of the columns that hold 1
    gives back the set of the row's genres; and a table whose rows hold the
    same genres in another order gets the same indicator columns. *)
Theorem encode_genres_round_trip df genre_column result df' :
  encode_genres df genre_column = Some (inr result, df') →
  ∃ rows,
    genre_rows df genre_column = Some rows ∧
    let ind := drop (length df) result in
    StronglySorted str_le ind.*1 ∧
    NoDup ind.*1 ∧
    (∀ c, c ∈ ind.*1 ↔ ∃ labels, labels ∈ rows ∧ c ∈ labels) ∧
    (∀ i j labels c, rows !! i = Some labels → ind !! j = Some c →
       c.2 !! i = Some (VInt (if bool_decide (c.1 ∈ labels) then 1 else 0))) ∧
    (∀ c, c ∈ ind → length c.2 = length rows) ∧
    (∀ i labels, rows !! i = Some labels → decode ind i = list_to_set labels) ∧
    (∀ df2 result2 df2' rows2,
       genre_rows df2 genre_column = Some rows2 →
       Forall2 (≡ₚ) rows rows2 →
       encode_genres df2 genre_column = Some (inr result2, df2') →
       drop (length df2) result2 = ind).
Proof.
  intros Henc. destruct (genre_rows_returns _ _ _ _ Henc) as (rows & Hrows & _ & Hind).
  exists rows. split; [done|]. simpl. rewrite Hind, DataFrame_of_names.
  split_and!.
  - apply classes_sorted.
  - apply classes_NoDup.
  - apply elem_of_classes.
  - intros i j labels c Hi Hj. by destruct (indicator_cell rows i j labels c Hi Hj).
  - apply indicator_length.
  - apply decode_indicator.
  - intros df2 result2 df2' rows2 Hrows2 Hperm Henc2.
    destruct (genre_rows_returns _ _ _ _ Henc2) as (rows2' & Hrows2' & _ & ->).
    rewrite Hrows2 in Hrows2'. injection Hrows2' as <-.
    assert (Forall2 (λ a b : list pystr, ∀ c, c ∈ a ↔ c ∈ b) rows rows2) as Hmem.
    { eapply Forall2_impl; [exact Hperm|]. intros a b Hab c. by rewrite Hab. }
    by rewrite (indicator_matrix_same_members _ _ Hmem), (classes_same_members _ _ Hmem).
Qed.

Lemma apply_Forall2 (f : pyval → exn + pyval) cells parsed :
  apply f cells = inr parsed → Forall2 (λ x y, f x = inr y) cells parsed.
Proof.
  revert parsed. induction cells as [|x cells IH]; intros parsed; simpl.
  - intros [= <-]. constructor.
  - destruct (f x) as [e|y] eqn:Hx; [done|].
    destruct (apply f cells) as [e|ys]; [done|].
    intros [= <-]. constructor; [done|]. by apply IH.
Qed.

(** C10: a call that returns has changed the caller's table: its genre
    column now holds, where there was text, the value [literal_eval] read
    from it (cells that were no text are kept), in the column's old place.
    The table returned starts with the columns of the changed table, so
    every other column is there with its label and cells as before. *)
Theorem encode_genres_changes_caller_table df genre_column result df' :
  encode_genres df genre_column = Some (inr result, df') →
  ∃ cells parsed,
    getitem df genre_column = Some (inr cells) ∧
    Forall2 (λ x y, match x with VStr s => literal_eval s = inr y | _ => y = x end)
      cells parsed ∧
    df' = setitem df genre_column parsed ∧
    length df' = length df ∧
    take (length df) result = df' ∧
    (∀ k c, df !! k = Some c → c.1 = genre_column →
       df' !! k = Some (genre_column, parsed) ∧ result !! k = Some (genre_column, parsed)) ∧
    (∀ k c, df !! k = Some c → c.1 ≠ genre_column →
       df' !! k = Some c ∧ result !! k = Some c).
Proof.
  intros (cells & parsed & rows & Hg & Hp & Hr & -> & ->)%encode_genres_returns.
  exists cells, parsed.
  assert (∀ k c, setitem df genre_column parsed !! k = Some c →
                 (setitem df genre_column parsed ++
                  DataFrame_of (indicator_matrix rows) (classes_ rows)) !! k = Some c) as Hres.
  { intros k c Hk. by apply lookup_app_l_Some. }
  split_and!.
  - done.
  - apply apply_Forall2 in Hp. eapply Forall2_impl; [exact Hp|].
    intros [] y; simpl; congruence.
  - done.
  - apply setitem_length.
  - rewrite <- (setitem_length df genre_column parsed). apply take_app_length.
  - intros k c Hk Hc.
    assert (setitem df genre_column parsed !! k = Some (genre_column, parsed)) as Hk'.
    { rewrite setitem_lookup, Hk. simpl. rewrite bool_decide_eq_true_2 by done. by rewrite Hc. }
    split; [done|by apply Hres].
  - intros k c Hk Hc.
    assert (setitem df genre_column parsed !! k = Some c) as Hk'.
    { rewrite setitem_lookup, Hk. simpl. by rewrite bool_decide_eq_false_2. }
    split; [done|by apply Hres].
Qed.

End encoder.

(** ** Runs on concrete tables *)

(** C3 does not hold for a table whose index is not the default one.  The
    three rows of [sliced_table] are labelled 1, 2, 3, so [len(df) - 1] is
    the label of the second row: the test [index == len(df) - 1] flushes a
    batch of two rows there, and the third row goes to a second file.  All
    three lookups find a track, so [ceil(3 / 50) = 1] file was due, and the
    short batch is not the last one. *)
Theorem main_sliced_table_two_files :
  let st := main (H := demo_client) 0%nat sliced_table in
  forallb is_found (row_results (H := demo_client) 3 (init_state 0%nat) sliced_table) = true ∧
  file_sizes (saved_batches (out st)) =
    [(py "../data/batches/songs_batch_52.csv", 2%nat);
     (py "../data/batches/songs_batch_53.csv", 1%nat)] ∧
  length (saved_batches (out st)) ≠ ((3 + 49) / 50)%nat.
Proof. vm_compute. split_and!; [done|done|lia]. Qed.

(** C7 does not hold for every table of 51 rows: with the rows labelled 10
    to 60, label 50 = [len(df) - 1] sits on row 41, where a batch of 41 rows
    is written as number 52; the other 10 rows make batch 53. *)
Theorem main_51_rows_shifted_index :
  let df := rows_from 10 51 in
  let st := main (H := demo_client) 0%nat df in
  length df = 51%nat ∧
  forallb is_found (row_results (H := demo_client) 51 (init_state 0%nat) df) = true ∧
  file_sizes (to_csv_calls (out st)) =
    [(py "../data/batches/songs_batch_52.csv", 41%nat);
     (py "../data/batches/songs_batch_53.csv", 10%nat)].
Proof. vm_compute. split_and!; done. Qed.

Section sizes.
Context `{Spotify W}.

(** X7: whatever the index labels of the table, every batch file [main]
    writes holds 1 to 50 rows. *)
Lemma main_batch_sizes (sp0 : W) (df : DataRows) :
  Forall (λ c, 1 ≤ length c.2 ≤ 50)%nat (saved_batches (out (main sp0 df))).
Proof.
  rewrite saved_batches_main. unfold loop_view.
  match goal with |- context [fold_left ?f ?xs ?v] =>
    assert (sizes_ok (fold_left f xs v)) as [Hf Hb]
  end.
  { apply sizes_ok_fold. split; [constructor|simpl; lia]. }
  unfold all_batches. apply Forall_app. split; [done|].
  destruct (v_batch _) eqn:Hv; constructor; [|done]. simpl in *. lia.
Qed.

Lemma all_found_rows (rows : list ChartEntry) (rs : list lookup_result) :
  forallb is_found rs = true →
  failed (zip rows rs) = [] ∧ length (enriched (zip rows rs)) = length (zip rows rs).
Proof.
  revert rows. induction rs as [|[f| |e] rs IH]; intros [|row rows]; simpl; try done.
  intros Hrs. destruct (IH rows Hrs) as [IH1 IH2].
  unfold failed, enriched in *. simpl. by rewrite IH1, IH2.
Qed.

(** For a table of 51 rows with the default index whose lookups all find a
    track, exactly two files are written: batch 52 with 50 rows and batch 53
    with one row, and no failure file. *)
Lemma main_51_rows_default_index (sp0 : W) (df : DataRows) :
  default_index df →
  length df = 51%nat →
  forallb is_found (row_results 51 (init_state sp0) df) = true →
  file_sizes (to_csv_calls (out (main sp0 df))) =
    [(batch_filename 52, 50%nat); (batch_filename 53, 1%nat)].
Proof.
  intros Hdef Hlen Hfound.
  destruct (main_default_index_batches sp0 df Hdef) as (Hcount & _ & Hfull).
  destruct (main_rows sp0 df) as [Hrows Hfailed].
  pose proof (to_csv_calls_main sp0 df) as Hcalls.
  destruct (main_fields sp0 df) as (Hfl & _ & Hnum).
  apply all_batches_numbered in Hnum. rewrite <- saved_batches_main in Hnum, Hcalls.
  cbv zeta in Hcount, Hrows, Hfailed.
  replace (Z.of_nat (length df)) with 51%Z in * by lia.
  destruct (all_found_rows df.*2 _ Hfound) as [Hnofail Hall].
  rewrite length_zip_with, length_fmap, row_results_length, Hlen in Hall.
  rewrite Hall in Hcount. change ((51 `min` 51 + 49) `div` 50)%nat with 2%nat in Hcount.
  rewrite <- Hrows in Hall.
  rewrite Hcalls. unfold failure_file. rewrite <- Hfl, Hfailed, Hnofail, app_nil_r.
  destruct (saved_batches (out (main sp0 df))) as [|[f1 b1] [|[f2 b2] [|? ?]]]; try done.
  injection Hnum as -> ->.
  specialize (Hfull 0%nat _ eq_refl).
  cbn [length snd] in Hfull. specialize (Hfull ltac:(lia)).
  cbn [fmap list_fmap snd concat] in Hall. rewrite app_nil_r, length_app in Hall.
  unfold file_sizes. cbn [fmap list_fmap fst snd]. rewrite Hfull.
  replace (length b2) with 1%nat by lia. reflexivity.
Qed.

End sizes.

(** ** Instances of the theorems with hypotheses *)


Lemma failed_lookup_keeps_raw_artist_witness :
  failed_tracks (loop_body (H := demo_client) 3 (init_state 0%nat)
                   (0%Z, entry "Unknown" "A & B")) =
    [<[py "track_name" := VStr (py "Unknown")]>
       (<[py "artist_name" := VStr (py "A & B")]> ∅)] ∧
  VStr (py "A & B") ≠ VStr (clean_artist_name (py "A & B")).
Proof.
  destruct (failed_lookup_keeps_raw_artist (H := demo_client) 3 (init_state 0%nat) 0
              (entry "Unknown" "A & B") 1%nat) as [Hfailed Hdiff].
  - vm_compute. reflexivity.
  - split; [exact Hfailed|]. apply Hdiff. apply Exists_cons_hd. vm_compute. reflexivity.
Defined.

Lemma encode_genres_round_trip_witness :
  ∃ rows,
    genre_rows (H := read_string_list) genre_table genre_column_default = Some rows ∧
    ∀ i labels, rows !! i = Some labels →
      decode (drop (length genre_table) genre_table_encoded) i = list_to_set labels.
Proof.
  destruct (encode_genres_round_trip (H := read_string_list) genre_table
              genre_column_default genre_table_encoded genre_table_parsed)
    as (rows & Hrows & _ & _ & _ & _ & _ & Hdecode & _).
  - vm_compute. reflexivity.
  - exists rows. split; [exact Hrows | exact Hdecode].
Defined.

Lemma encode_genres_changes_caller_table_witness :
  genre_table_parsed = setitem genre_table genre_column_default
    [VList [py "rock"; py "pop"]; VList [py "pop"; py "jazz"]; VList []] ∧
  take (length genre_table) genre_table_encoded = genre_table_parsed ∧
  genre_table_parsed ≠ genre_table.
Proof.
  destruct (encode_genres_changes_caller_table (H := read_string_list) genre_table
              genre_column_default genre_table_encoded genre_table_parsed)
    as (cells & parsed & Hg & Hp & Hdf & _ & Htake & _).
  - vm_compute. reflexivity.
  - split_and!; [|exact Htake|vm_compute; discriminate].
    vm_compute. reflexivity.
Defined.

(* ===================================================================== *)
(** * Part III: further properties of the code                            *)
(* ===================================================================== *)

(** ** NameNormalizer: what a normalised name looks like *)

Lemma lstrip_idem s : lstrip (lstrip s) = lstrip s.
Proof.
  induction s as [|c s IH]; simpl; [done|].
  destruct (isspace c) eqn:Hc; [done|]. simpl. by rewrite Hc.
Qed.

Lemma lstrip_prefix_mono p s : p `prefix_of` s → lstrip p `prefix_of` lstrip s.
Proof.
  revert s. induction p as [|c p IH]; intros s Hp; simpl; [apply prefix_nil|].
  destruct Hp as [k ->]. simpl. destruct (isspace c).
  - apply IH. by exists k.
  - by exists k.
Qed.

Lemma rstrip_prefix s : rstrip s `prefix_of` s.
Proof.
  unfold rstrip. destruct (lstrip_suffix (reverse s)) as [a Ha].
  exists (reverse a).
  rewrite <- reverse_app, <- Ha. by rewrite reverse_involutive.
Qed.

Lemma lstrip_snoc s c : isspace c = false → lstrip (s ++ [c]) = lstrip s ++ [c].
Proof.
  intros Hc. induction s as [|x s IH]; simpl; [by rewrite Hc|].
  by destruct (isspace x).
Qed.

Lemma rstrip_cons c s : isspace c = false → rstrip (c :: s) = c :: rstrip s.
Proof.
  intros Hc. unfold rstrip.
  by rewrite reverse_cons, lstrip_snoc, reverse_app.
Qed.

Lemma rstrip_idem s : rstrip (rstrip s) = rstrip s.
Proof. unfold rstrip. by rewrite reverse_involutive, lstrip_idem. Qed.

(** Trimming twice is trimming once. *)
Lemma strip_idem s : strip (strip s) = strip s.
Proof.
  unfold strip.
  assert (lstrip (rstrip (lstrip s)) = rstrip (lstrip s)) as ->; [|apply rstrip_idem].
  pose proof (lstrip_idem s) as Hl. destruct (lstrip s) as [|c y]; [done|].
  simpl in Hl. destruct (isspace c) eqn:Hc.
  - (* a left-trimmed string does not start with a blank *)
    exfalso. destruct (lstrip_suffix y) as [a Ha].
    apply (f_equal length) in Ha, Hl. rewrite length_app in Ha. simpl in Hl. lia.
  - rewrite rstrip_cons by done. simpl. by rewrite Hc.
Qed.

Lemma strip_prefix_lstrip p s : p `prefix_of` s → strip p `prefix_of` lstrip s.
Proof.
  intros Hp. unfold strip. etrans; [apply rstrip_prefix|]. by apply lstrip_prefix_mono.
Qed.

Lemma clean_step_cut s t d : cut_of s t → cut_of s (clean_step t d).
Proof.
  intros [Hp Ht]. unfold clean_step. destruct (contains d t); [|done].
  rewrite first_split. split; [|apply strip_idem].
  etrans; [apply strip_prefix_lstrip, before_prefix|].
  rewrite <- (lstrip_idem s). by apply lstrip_prefix_mono.
Qed.

Lemma clean_fold_cut ds s t : cut_of s t → cut_of s (fold_left clean_step ds t).
Proof.
  revert t. induction ds as [|d ds IH]; intros t Ht; simpl; [done|].
  by apply IH, clean_step_cut.
Qed.

(** X1: normalising is idempotent: a normalised name contains no token of
    the list any more, so a second pass returns it as it is. *)
Theorem clean_artist_name_idempotent (s : pystr) :
  clean_artist_name (clean_artist_name s) = clean_artist_name s.
Proof.
  unfold clean_artist_name at 1.
  apply clean_fold_absent, clean_artist_name_free.
Qed.

(** X2: when some token of the list occurs in the artist string, the
    normalised name is a prefix of the string without its leading
    whitespace (the function only ever cuts from the right), it has no
    whitespace at either end, and it is shorter than the string. *)
Theorem clean_artist_name_is_trimmed_prefix (s : pystr) :
  Exists (λ d, contains d s = true) delimiters →
  clean_artist_name s `prefix_of` lstrip s ∧
  strip (clean_artist_name s) = clean_artist_name s ∧
  (length (clean_artist_name s) < length s)%nat.
Proof.
  intros Hex.
  assert (cut_of s (clean_artist_name s)) as [Hp Ht].
  { unfold clean_artist_name. revert Hex. generalize delimiters. intros ds.
    induction 1 as [d ds Hd | d ds _ IH]; simpl.
    - apply clean_fold_cut. rewrite clean_step_present by done.
      split; [apply strip_prefix_lstrip, before_prefix | apply strip_idem].
    - destruct (contains d s) eqn:Hd.
      + apply clean_fold_cut. rewrite clean_step_present by done.
        split; [apply strip_prefix_lstrip, before_prefix | apply strip_idem].
      + by rewrite clean_step_absent. }
  split_and!; [done|done|].
  (* the result has no token, the string has one: they differ *)
  assert (clean_artist_name s ≠ s) as Hne.
  { intros Heq. apply Exists_exists in Hex as (d & Hd & Hin).
    pose proof (clean_artist_name_free s) as Hfree.
    rewrite Forall_forall in Hfree. specialize (Hfree d Hd).
    rewrite Heq in Hfree. congruence. }
  destruct (lstrip_suffix s) as [a Ha]. destruct Hp as [k Hk].
  assert (length s = length a + length (clean_artist_name s) + length k)%nat as Hlen.
  { rewrite Ha at 1. rewrite Hk, !length_app. lia. }
  destruct a as [|x a], k as [|y k]; cbn [length] in Hlen; try lia.
  exfalso. apply Hne. change (s = lstrip s) in Ha. rewrite app_nil_r in Hk. congruence.
Qed.

Lemma clean_artist_name_is_trimmed_prefix_witness :
  clean_artist_name (py "  Drake Featuring Rihanna") `prefix_of`
    lstrip (py "  Drake Featuring Rihanna") ∧
  strip (clean_artist_name (py "  Drake Featuring Rihanna")) =
    clean_artist_name (py "  Drake Featuring Rihanna") ∧
  (length (clean_artist_name (py "  Drake Featuring Rihanna")) <
   length (py "  Drake Featuring Rihanna"))%nat.
Proof.
  apply clean_artist_name_is_trimmed_prefix.
  unfold delimiters. do 3 apply Exists_cons_tl. apply Exists_cons_hd.
  vm_compute. reflexivity.
Defined.

(** ** MetadataClient: the record of a found track *)

Section features.
Context `{Spotify W}.
Implicit Types (st : state W) (row : ChartEntry) (df : DataRows).

(** What a call that finds a track has done. *)
Lemma get_track_features_found track_name artist_name (w w' : W) f :
  get_track_features track_name artist_name w = (inr (Some f), w') →
  ∃ track items w1 artist_id ids info url urls,
    sp_search (py "track:" ++ track_name ++ py " artist:" ++ artist_name) w =
      (inr (track :: items), w1) ∧
    artists track = artist_id :: ids ∧
    sp_artist artist_id w1 = (inr info, w') ∧
    images track = url :: urls ∧
    f = <[py "track_id" := VStr (track_id track)]>
        (<[py "popularity" := VInt (popularity track)]>
        (<[py "duration_ms" := VInt (duration_ms track)]>
        (<[py "album_release_year" := VStr (take 4 (release_date track))]>
        (<[py "album_cover_url" := VStr url]>
        (<[py "explicit" := VBool (explicit track)]>
        (<[py "artist_popularity" := VInt (artist_popularity info)]>
        (<[py "artist_genres" := VList (genres info)]> ∅))))))).
Proof.
  unfold get_track_features, mbind, Call_bind, item0, mret, Call_ret, raise.
  destruct (sp_search _ w) as [[e|[|track items]] w1] eqn:Hs; [done|done|].
  destruct (artists track) as [|artist_id ids] eqn:Ha; [done|].
  destruct (sp_artist artist_id w1) as [[e|info] w2] eqn:Hi; [done|].
  destruct (images track) as [|url urls] eqn:Hu; [done|].
  intros [= <- <-]. by exists track, items, w1, artist_id, ids, info, url, urls.
Qed.

Lemma get_track_features_dom track_name artist_name (w w' : W) f :
  get_track_features track_name artist_name w = (inr (Some f), w') →
  dom f = feature_keys.
Proof.
  intros (track & items & w1 & a & ids & info & url & urls & _ & _ & _ & _ & ->)
    %get_track_features_found.
  rewrite !dom_insert_L, dom_empty_L. unfold feature_keys. simpl. set_solver.
Qed.

(** X3: the record of a found track has exactly the eight keys of
    [track_info], so it is never empty and the test [if features:] of the
    batch processor tells a found track from no match; its
    [album_release_year] holds at most four characters, the first ones of
    the album's release date. *)
Theorem get_track_features_record track_name artist_name (w w' : W) f :
  get_track_features track_name artist_name w = (inr (Some f), w') →
  dom f = feature_keys ∧
  size f = 8%nat ∧
  f ≠ ∅ ∧
  ∃ year, f !! py "album_release_year" = Some (VStr year) ∧ (length year ≤ 4)%nat.
Proof.
  intros Hf. pose proof (get_track_features_dom _ _ _ _ _ Hf) as Hdom.
  assert (size f = 8%nat) as Hsize.
  { rewrite <- size_dom, Hdom. vm_compute. reflexivity. }
  split_and!; [done|done| |].
  - intros ->. rewrite map_size_empty in Hsize. discriminate Hsize.
  - apply get_track_features_found in Hf
      as (track & items & w1 & a & ids & info & url & urls & _ & _ & _ & _ & ->).
    exists (take 4 (release_date track)). split.
    + by vm_compute.
    + rewrite length_take. lia.
Qed.

(** X4: a track that is found, and whose artist is fetched, but whose album
    has no image makes [get_track_features] fail with [IndexError] after
    both calls to the service; the batch processor treats it like any other
    exception: the row is counted and printed, and recorded nowhere. *)
Theorem loop_body_track_without_image n st index row track items artist_id ids info
    (w1 w2 : W) :
  sp_search (py "track:" ++ Song row ++ py " artist:" ++ clean_artist_name (Artist row))
    (sp (pause st)) = (inr (track :: items), w1) →
  artists track = artist_id :: ids →
  sp_artist artist_id w1 = (inr info, w2) →
  images track = [] →
  loop_body n st (index, row) =
    State (current_batch st) (failed_tracks st) (batch_number st)
      (processed_count st + 1) w2
      (out (pause st) ++
         [PrintMsg (py "Error processing track " ++ Song row ++ py " by " ++
                    clean_artist_name (Artist row) ++ py ": " ++
                    py "list index out of range")]).
Proof.
  intros Hs Ha Hi Hu.
  destruct (pause_fields st) as (Hb & Hf & Hn & Hc & _).
  unfold loop_body, get_track_features, mbind, Call_bind, item0, mret, Call_ret, raise.
  rewrite Hs, Ha. simpl. rewrite Hi, Hu. simpl. by rewrite Hb, Hf, Hn, Hc.
Qed.

Lemma feature_keys_elem k :
  k ∈ feature_keys ↔
  k ∈ py <$> ["track_id"; "popularity"; "duration_ms"; "album_release_year";
              "album_cover_url"; "explicit"; "artist_popularity"; "artist_genres"]%string.
Proof. unfold feature_keys. by rewrite elem_of_list_to_set. Qed.

(** X5: the record a found row adds to its batch keeps the row's [Song] and
    its [Artist] as they are in the table (not the normalised artist used
    for the search), holds the eight values of the service under their keys,
    which replace a column of the table called like one of them, and holds
    every other column of the row unchanged. *)
Theorem enriched_row_fields row track_name artist_name (w w' : W) f :
  get_track_features track_name artist_name w = (inr (Some f), w') →
  enriched_row row f !! py "Song" = Some (VStr (Song row)) ∧
  enriched_row row f !! py "Artist" = Some (VStr (Artist row)) ∧
  (∀ k, k ∈ feature_keys → is_Some (f !! k) ∧ enriched_row row f !! k = f !! k) ∧
  (∀ k, k ∉ feature_keys → k ≠ py "Song" → k ≠ py "Artist" →
        enriched_row row f !! k = rest row !! k).
Proof.
  intros Hf. pose proof (get_track_features_dom _ _ _ _ _ Hf) as Hdom.
  assert (∀ k, k ∉ feature_keys → enriched_row row f !! k = to_dict row !! k) as Hout.
  { intros k Hk. unfold enriched_row. apply lookup_union_r.
    apply not_elem_of_dom. by rewrite Hdom. }
  assert (∀ s, s ∈ ["Song"; "Artist"]%string → py s ∉ feature_keys) as Hnot.
  { intros s Hs. rewrite feature_keys_elem.
    intros (s' & Heq%py_inj & Hs')%list_elem_of_fmap. subst s'.
    repeat (apply elem_of_cons in Hs as [->|Hs]);
      [..|by apply elem_of_nil in Hs];
      repeat (apply elem_of_cons in Hs' as [Hs'|Hs']; [discriminate|]);
      by apply elem_of_nil in Hs'. }
  split_and!.
  - rewrite Hout by (apply Hnot, elem_of_cons; by left).
    unfold to_dict. by rewrite lookup_insert_eq.
  - rewrite Hout by (apply Hnot, elem_of_cons; right; apply elem_of_cons; by left).
    unfold to_dict.
    rewrite lookup_insert_ne by (by intros ?%py_inj). by rewrite lookup_insert_eq.
  - intros k Hk. rewrite <- Hdom in Hk. apply elem_of_dom in Hk as [v Hv].
    split; [by exists v|]. unfold enriched_row. rewrite Hv. by apply lookup_union_Some_l.
  - intros k Hk HS HA. rewrite Hout by done. unfold to_dict.
    by rewrite !lookup_insert_ne.
Qed.

End features.

(** ** BatchProcessor: pauses, file names, chunks *)

Lemma slept_app o1 o2 : slept (o1 ++ o2) = slept o1 ++ slept o2.
Proof. apply omap_app. Qed.

Lemma pauses_so_far (n : nat) :
  Z.to_nat ((Z.of_nat n - 1) / 50) = ((n - 1) / 50)%nat.
Proof.
  destruct n as [|m]; [done|].
  replace (Z.of_nat (S m) - 1)%Z with (Z.of_nat m) by lia.
  replace (S m - 1)%nat with m by lia.
  change 50%Z with (Z.of_nat 50). by rewrite <- Nat2Z.inj_div, Nat2Z.id.
Qed.

Section pauses.
Context `{Spotify W}.
Implicit Types (st : state W) (row : ChartEntry) (df : DataRows).

Lemma pause_slept st :
  slept (out (pause st)) =
  slept (out st) ++
    if (0 <? processed_count st)%Z && (processed_count st mod 50 =? 0)%Z
    then [30%Z] else [].
Proof.
  unfold pause. destruct (_ && _); simpl; [|by rewrite app_nil_r].
  by rewrite slept_app.
Qed.

Lemma loop_body_slept n st ir :
  slept (out (loop_body n st ir)) = slept (out (pause st)) ∧
  processed_count (loop_body n st ir) = (processed_count st + 1)%Z.
Proof.
  destruct ir as [index row].
  destruct (pause_fields st) as (_ & _ & _ & Hc & _).
  unfold loop_body.
  destruct (get_track_features _ _ _) as [[e|[f|]] w]; simpl.
  - by rewrite slept_app, app_nil_r, Hc.
  - destruct (bool_decide _ || bool_decide _); simpl; [|by rewrite Hc].
    destruct (current_batch (pause st) ++ _); simpl; [by rewrite Hc|].
    by rewrite slept_app, app_nil_r, Hc.
  - by rewrite Hc.
Qed.

Lemma paused_step n st ir : paused st → paused (loop_body n st ir).
Proof.
  intros [Hpos Hs]. destruct (loop_body_slept n st ir) as [Hsl Hc].
  split; [lia|]. rewrite Hsl, Hc, pause_slept, Hs.
  replace (processed_count st + 1 - 1)%Z with (processed_count st) by lia.
  destruct (Z.ltb_spec 0 (processed_count st)) as [Hgt|Hle]; simpl.
  - destruct (Z.eqb_spec (processed_count st mod 50) 0) as [Hmod|Hmod].
    + replace (Z.to_nat (processed_count st / 50))
        with (Z.to_nat ((processed_count st - 1) / 50) + 1)%nat
        by (Z.div_mod_to_equations; lia).
      by rewrite replicate_add.
    + rewrite app_nil_r.
      replace (Z.to_nat (processed_count st / 50))
        with (Z.to_nat ((processed_count st - 1) / 50))
        by (Z.div_mod_to_equations; lia).
      done.
  - rewrite app_nil_r.
    replace (Z.to_nat (processed_count st / 50))
      with (Z.to_nat ((processed_count st - 1) / 50))
      by (Z.div_mod_to_equations; lia).
    done.
Qed.

Lemma paused_fold n df st : paused st → paused (fold_left (loop_body n) df st).
Proof.
  revert st. induction df as [|ir df IH]; intros st Hst; simpl; [done|].
  by apply IH, paused_step.
Qed.

Lemma processed_count_fold n df st :
  processed_count (fold_left (loop_body n) df st) =
  (processed_count st + Z.of_nat (length df))%Z.
Proof.
  revert st. induction df as [|ir df IH]; intros st; simpl; [lia|].
  rewrite IH. destruct (loop_body_slept n st ir) as [_ ->]. lia.
Qed.

(** X6: [main] counts every row of the table as processed, whatever its
    lookup gave, and sleeps 30 seconds [(len(df) - 1) // 50] times: once
    before every row that has a positive multiple of 50 rows before it, and
    not at all for a table of at most 50 rows. *)
Theorem main_pauses (sp0 : W) df :
  processed_count (main sp0 df) = Z.of_nat (length df) ∧
  slept (out (main sp0 df)) = replicate ((length df - 1) / 50) 30%Z.
Proof.
  assert (processed_count (main sp0 df) = processed_count (main_loop df (init_state sp0)) ∧
          slept (out (main sp0 df)) = slept (out (main_loop df (init_state sp0)))) as [-> ->].
  { unfold main, save_failed, flush_final.
    generalize (main_loop df (init_state sp0)). intros st.
    destruct (current_batch st) eqn:Hb; simpl;
      destruct (failed_tracks st) eqn:Hf; simpl;
      rewrite ?slept_app; simpl; by rewrite ?app_nil_r. }
  unfold main_loop. split.
  - by rewrite processed_count_fold.
  - destruct (paused_fold (Z.of_nat (length df)) df (init_state sp0)) as [_ Hs].
    { split; [done|]. reflexivity. }
    rewrite Hs, processed_count_fold. simpl. apply (f_equal (λ k, replicate k 30%Z)).
    apply pauses_so_far.
Qed.

(** X9: no file is written twice in a run: the batch files have pairwise
    different names, none of them the name of the failure file, which is
    written at most once and after every batch file. *)
Theorem main_file_names_distinct (sp0 : W) df :
  NoDup (to_csv_calls (out (main sp0 df))).*1 ∧
  to_csv_calls (out (main sp0 df)) =
    saved_batches (out (main sp0 df)) ++ saved_failed (out (main sp0 df)) ∧
  (length (saved_failed (out (main sp0 df))) ≤ 1)%nat.
Proof.
  rewrite saved_batches_main, saved_failed_main, to_csv_calls_main.
  destruct (main_fields sp0 df) as (_ & _ & Hnum).
  split_and!; [|done|].
  - rewrite fmap_app. apply NoDup_app. split_and!.
    + rewrite (all_batches_numbered 51 _ Hnum).
      apply NoDup_fmap_2; [|apply NoDup_seq].
      intros i j Hij%batch_filename_inj. lia.
    + intros f Hf Hfail.
      assert (f = failed_filename) as ->.
      { unfold failure_file in Hfail. destruct (v_failed _); simpl in Hfail.
        - by apply elem_of_nil in Hfail.
        - by apply list_elem_of_singleton in Hfail. }
      apply list_elem_of_fmap in Hf as (c & Hc & Hin).
      pose proof (all_batches_names 51 _ Hnum) as Hnames.
      rewrite Forall_forall in Hnames. by apply (Hnames c Hin).
    + unfold failure_file. destruct (v_failed _); simpl; [constructor|].
      apply NoDup_singleton.
  - unfold failure_file. destruct (v_failed _); simpl; lia.
Qed.

End pauses.

Lemma chunk_lookup (full : list (pystr * list dict)) (tail : list dict) i c :
  Forall (λ c, length c.2 = 50%nat) full →
  full !! i = Some c →
  take 50 (drop (50 * i) (concat full.*2 ++ tail)) = c.2.
Proof.
  intros Hfull. revert i. induction Hfull as [|x full Hx _ IH]; intros i Hi; [done|].
  rewrite fmap_cons. cbn [concat]. rewrite <- app_assoc.
  destruct i as [|i]; simpl in Hi.
  - injection Hi as ->. rewrite Nat.mul_0_r, drop_0.
    by rewrite take_app_length' by done.
  - replace (50 * S i)%nat with (length x.2 + 50 * i)%nat by lia.
    rewrite drop_app_add'; [by apply IH | done].
Qed.

Lemma chunked_rows files :
  chunked files →
  ∀ i c, files !! i = Some c → c.2 = take 50 (drop (50 * i) (concat files.*2)).
Proof.
  intros (full & last & -> & Hfull & Hlast) i c Hi.
  rewrite fmap_app, concat_app.
  destruct (decide (i < length full)%nat) as [Hlt|Hge].
  - rewrite lookup_app_l in Hi by done. symmetry. by apply chunk_lookup.
  - destruct Hlast as [-> | (c' & -> & Hc')].
    { rewrite app_nil_r in Hi. apply lookup_lt_Some in Hi. lia. }
    rewrite lookup_app_r in Hi by lia.
    destruct (i - length full)%nat as [|?] eqn:Hd; simpl in Hi; [|done].
    injection Hi as ->. assert (i = length full) as -> by lia.
    rewrite fmap_cons. cbn [fmap list_fmap concat]. rewrite app_nil_r.
    rewrite drop_app_length' by (rewrite (length_concat_full full Hfull); lia).
    rewrite take_ge; [done|lia].
Qed.

Section chunks.
Context `{Spotify W}.

(** X8: for a table with the default index (the row at position [i] is
    labelled [i]) the batch files are the successive chunks of 50 of the
    enriched rows: with [S] rows found there are [ceil(S / 50)] files, and
    file [i] (from 0) is called by batch number [52 + i] and holds rows
    [50 i] to [50 i + 49] of the enriched rows, the last file what is
    left. *)
Theorem main_default_index_chunks (sp0 : W) (df : DataRows) :
  default_index df →
  let files := saved_batches (out (main sp0 df)) in
  let rows := enriched (zip df.*2 (row_results (Z.of_nat (length df)) (init_state sp0) df)) in
  length files = ((length rows + 49) / 50)%nat ∧
  ∀ i c, files !! i = Some c →
    c.1 = batch_filename (52 + Z.of_nat i) ∧
    c.2 = take 50 (drop (50 * i) rows).
Proof.
  intros Hdef files rows.
  destruct (main_default_index_batches sp0 df Hdef) as (Hcount & _ & _).
  split; [exact Hcount|]. intros i c Hi. split.
  - destruct (main_fields sp0 df) as (_ & _ & Hnum).
    apply all_batches_numbered in Hnum. rewrite <- saved_batches_main in Hnum.
    fold files in Hnum.
    assert (files.*1 !! i = Some c.1) as Hn by (by rewrite list_lookup_fmap, Hi).
    rewrite Hnum, list_lookup_fmap in Hn.
    rewrite lookup_seq_lt in Hn by (by eapply lookup_lt_Some). simpl in Hn.
    injection Hn as <-. f_equal; lia.
  - unfold rows. destruct (main_rows sp0 df) as [<- _]. fold files.
    refine (chunked_rows files _ i c Hi).
    unfold files. rewrite saved_batches_main. unfold loop_view.
    set (xs := zip df (row_results (Z.of_nat (length df)) (init_state sp0) df)).
    assert (length xs = length df) as Hlen.
    { unfold xs. rewrite length_zip_with, row_results_length. lia. }
    rewrite <- Hlen. apply view_fold_default.
    unfold xs. rewrite zip_index by apply row_results_length.
    rewrite Hdef. do 2 f_equal. unfold xs in Hlen. by rewrite Hlen.
Qed.

End chunks.

(** ** Tables: reading and assigning a column *)

Lemma filter_nil_Forall {A} (P : A → Prop) `{!∀ x, Decision (P x)} (l : list A) :
  filter P l = [] → Forall (λ x, ¬ P x) l.
Proof.
  induction l as [|x l IH]; [constructor|].
  rewrite filter_cons. destruct (decide (P x)); [done|].
  intros Hl. constructor; [done | by apply IH].
Qed.

(** [df[key]] is a column exactly when one column of the table has the
    label: the table splits around it. *)
Lemma getitem_split (df : DataFrame) key cells :
  getitem df key = Some (inr cells) ↔
  ∃ l1 l2, df = l1 ++ (key, cells) :: l2 ∧
           Forall (λ c, c.1 ≠ key) l1 ∧ Forall (λ c, c.1 ≠ key) l2.
Proof.
  unfold getitem. split.
  - induction df as [|c df IH].
    + by rewrite filter_nil.
    + rewrite filter_cons. destruct (decide (c.1 = key)) as [Hc|Hc].
      * destruct (filter _ df) eqn:Hf; [|done]. intros [= <-].
        exists [], df. destruct c as [l v]. simpl in Hc. subst l.
        split_and!; [done|constructor|by apply filter_nil_Forall in Hf].
      * intros (l1 & l2 & -> & H1 & H2)%IH.
        exists (c :: l1), l2. split_and!; [done|by constructor|done].
  - intros (l1 & l2 & -> & H1 & H2).
    rewrite filter_app, filter_cons_True by done.
    by rewrite !filter_none.
Qed.

Lemma getitem_missing (df : DataFrame) key :
  Forall (λ c, c.1 ≠ key) df →
  getitem df key = Some (inl (Exn KeyError (py "'" ++ key ++ py "'"))).
Proof. intros Hdf. unfold getitem. by rewrite filter_none. Qed.

Lemma setitem_other (l : DataFrame) key cells :
  Forall (λ c, c.1 ≠ key) l → setitem l key cells = l.
Proof.
  induction 1 as [|c l Hc _ IH]; [done|].
  unfold setitem in *. rewrite fmap_cons, IH. by rewrite bool_decide_eq_false_2.
Qed.

Lemma setitem_split (l1 l2 : DataFrame) key cells new :
  Forall (λ c, c.1 ≠ key) l1 → Forall (λ c, c.1 ≠ key) l2 →
  setitem (l1 ++ (key, cells) :: l2) key new = l1 ++ (key, new) :: l2.
Proof.
  intros H1 H2. pose proof (setitem_other l1 key new H1) as E1.
  pose proof (setitem_other l2 key new H2) as E2.
  unfold setitem in *. rewrite fmap_app, fmap_cons, E1, E2. simpl.
  by rewrite bool_decide_eq_true_2.
Qed.

(** Reading back what was assigned. *)
Lemma getitem_setitem (df : DataFrame) key cells new :
  getitem df key = Some (inr cells) →
  getitem (setitem df key new) key = Some (inr new).
Proof.
  intros (l1 & l2 & -> & H1 & H2)%getitem_split.
  rewrite setitem_split by done. apply getitem_split. by exists l1, l2.
Qed.

Lemma setitem_setitem (df : DataFrame) key new1 new2 :
  setitem (setitem df key new1) key new2 = setitem df key new2.
Proof.
  unfold setitem. rewrite <- list_fmap_compose. apply list_fmap_ext.
  intros _ c _. simpl. destruct (decide (c.1 = key)) as [Hc|Hc].
  - rewrite (bool_decide_eq_true_2 (c.1 = key)) by done. simpl.
    by rewrite bool_decide_eq_true_2.
  - rewrite (bool_decide_eq_false_2 (c.1 = key)) by done.
    by rewrite bool_decide_eq_false_2.
Qed.

Lemma setitem_same (df : DataFrame) key cells :
  getitem df key = Some (inr cells) → setitem df key cells = df.
Proof.
  intros (l1 & l2 & -> & H1 & H2)%getitem_split. by apply setitem_split.
Qed.

Lemma setitem_labels (df : DataFrame) key cells : (setitem df key cells).*1 = df.*1.
Proof.
  unfold setitem. rewrite <- list_fmap_compose. apply list_fmap_ext.
  intros _ c _. simpl. by case_bool_decide.
Qed.

(** Assigning one column leaves the reading of another as it was. *)
Lemma getitem_setitem_ne (df : DataFrame) key key' new :
  key ≠ key' → getitem (setitem df key new) key' = getitem df key'.
Proof.
  intros Hne. unfold getitem.
  assert (∀ l : DataFrame,
             filter (λ c, c.1 = key') (setitem l key new) = filter (λ c, c.1 = key') l) as ->;
    [|done].
  induction l as [|c l IH]; [done|].
  unfold setitem in *. rewrite fmap_cons, !filter_cons, IH.
  case_bool_decide as Hc; simpl; [|done].
  rewrite !decide_False; [done| |]; congruence.
Qed.

(** ** GenreEncoder: failures and repeated calls *)

Lemma iter_all_TypeError (y : list pyval) :
  Exists not_iterable y → ∃ e, iter_all y = inl e ∧ exn_kind e = TypeError.
Proof.
  induction 1 as [v y Hv | v y _ (e & He & Hk)]; simpl.
  - destruct v; try done; eauto.
  - destruct (iter_labels v) as [e'|labels] eqn:Hv.
    + exists e'. split; [done|]. destruct v; simpl in Hv; by simplify_eq.
    + rewrite He. eauto.
Qed.

Lemma apply_no_text (f : pystr → exn + pyval) (cells : list pyval) :
  Forall no_text cells →
  apply (λ x, match x with VStr s => f s | _ => inr x end) cells = inr cells.
Proof.
  induction 1 as [|v cells Hv _ IH]; simpl; [done|].
  rewrite IH. by destruct v.
Qed.

Section encoder_more.
Context `{LiteralEval}.

(** X10: a genre cell that is no sequence (a missing value, a number) makes
    the call fail with [TypeError], but the assignment of line 162 has been
    carried out by then: the caller's table is left with its genre column
    replaced by the parsed cells. *)
Theorem encode_genres_fails_after_assignment df genre_column cells parsed :
  getitem df genre_column = Some (inr cells) →
  apply (λ x, match x with VStr s => literal_eval s | _ => inr x end) cells = inr parsed →
  Exists not_iterable parsed →
  ∃ e, encode_genres df genre_column = Some (inl e, setitem df genre_column parsed) ∧
       exn_kind e = TypeError ∧
       getitem (setitem df genre_column parsed) genre_column = Some (inr parsed).
Proof.
  intros Hg Hp (e & He & Hk)%iter_all_TypeError.
  exists e. unfold encode_genres, fit_transform. rewrite Hg, Hp, He.
  split_and!; [done|done|]. by eapply getitem_setitem.
Qed.

(** X11: when [literal_eval] fails on the text of a genre cell, and every
    cell before it is read without failure, the call raises that exception
    and the caller's table is as it was: nothing is assigned. *)
Theorem encode_genres_unreadable_cell df genre_column before_cells s after_cells e :
  getitem df genre_column = Some (inr (before_cells ++ VStr s :: after_cells)) →
  Forall (λ x, match x with VStr t => ∃ y, literal_eval t = inr y | _ => True end)
    before_cells →
  literal_eval s = inl e →
  encode_genres df genre_column = Some (inl e, df).
Proof.
  intros Hg Hbefore Hs. unfold encode_genres. rewrite Hg.
  assert (apply (λ x, match x with VStr s => literal_eval s | _ => inr x end)
            (before_cells ++ VStr s :: after_cells) = inl e) as Happly.
  { clear Hg. induction Hbefore as [|x l Hx _ IH]; simpl.
    - by rewrite Hs.
    - rewrite IH. destruct x; try done. by destruct Hx as [y ->]. }
  by rewrite Happly.
Qed.

(** X12: calling again on the table the first call has changed gives the
    same result and changes nothing more, provided the parsed genre cells
    hold no text (a cell that [literal_eval] read as a string would be read
    again). *)
Theorem encode_genres_again df genre_column result df' parsed :
  encode_genres df genre_column = Some (inr result, df') →
  getitem df' genre_column = Some (inr parsed) →
  Forall no_text parsed →
  encode_genres df' genre_column = Some (inr result, df').
Proof.
  intros (cells & parsed' & rows & Hg & Hp & Hr & -> & ->)%encode_genres_returns
    Hg' Hnt.
  rewrite (getitem_setitem _ _ _ _ Hg) in Hg'. injection Hg' as ->.
  unfold encode_genres, fit_transform.
  rewrite (getitem_setitem _ _ _ _ Hg), (apply_no_text _ _ Hnt), Hr.
  by rewrite setitem_setitem.
Qed.

(** X13: the labels of the returned table are the labels of the input table
    followed by the distinct genre labels in sorted order, one column per
    label; so a label is repeated in the returned table exactly when it is
    repeated in the input or a genre is called like a column of the
    input. *)
Theorem encode_genres_labels df genre_column result df' :
  encode_genres df genre_column = Some (inr result, df') →
  ∃ rows,
    genre_rows df genre_column = Some rows ∧
    result.*1 = df.*1 ++ classes_ rows ∧
    length result = (length df + size (list_to_set (concat rows) : gset pystr))%nat ∧
    (NoDup result.*1 ↔
     NoDup df.*1 ∧ ∀ labels c, labels ∈ rows → c ∈ labels → c ∉ df.*1).
Proof.
  intros Henc.
  pose proof Henc as (cells & parsed & rows & Hg & Hp & Hr & -> & ->)%encode_genres_returns.
  exists rows. split_and!.
  - unfold genre_rows. by rewrite Hg, Hp, Hr.
  - by rewrite fmap_app, setitem_labels, DataFrame_of_names.
  - rewrite length_app, setitem_length. f_equal.
    unfold DataFrame_of. rewrite length_imap. unfold classes_.
    by rewrite merge_sort_Permutation.
  - rewrite fmap_app, setitem_labels, DataFrame_of_names, NoDup_app.
    split.
    + intros (Hdf & Hdisj & _). split; [done|].
      intros labels c Hl Hc Hin. apply (Hdisj c Hin).
      apply elem_of_classes. by exists labels.
    + intros [Hdf Hdisj]. split_and!; [done| |apply classes_NoDup].
      intros c Hin (labels & Hl & Hc)%elem_of_classes. by apply (Hdisj labels c).
Qed.

End encoder_more.

(** ** [clean_million_song_subset] *)

Lemma length_slice_2_m1 s : length (slice_2_m1 s) = (length s - 3)%nat.
Proof. unfold slice_2_m1. rewrite length_drop, length_take. lia. Qed.

Lemma slice_2_m1_wrapped a b s c : slice_2_m1 (a :: b :: s ++ [c]) = s.
Proof.
  unfold slice_2_m1. change (a :: b :: s ++ [c]) with ((a :: b :: s) ++ [c]).
  rewrite take_app_length'; [done|]. rewrite length_app. simpl. lia.
Qed.

#[global] Instance VStr_inj : Inj (=) (=) VStr.
Proof. by intros s t [= ->]. Qed.

Lemma str_slice_text (texts : list pystr) :
  str_slice_2_m1 (VStr <$> texts) = Some (VStr <$> (slice_2_m1 <$> texts)).
Proof.
  unfold str_slice_2_m1. apply mapM_Some.
  induction texts as [|s texts IH]; simpl; by constructor.
Qed.

Lemma str_slice_inv cells sliced :
  str_slice_2_m1 cells = Some sliced →
  ∃ texts, cells = VStr <$> texts ∧ sliced = VStr <$> (slice_2_m1 <$> texts).
Proof.
  unfold str_slice_2_m1. intros Hm%mapM_Some.
  induction Hm as [|x y cells sliced Hxy _ (texts & -> & ->)].
  - by exists [].
  - destruct x; try done. injection Hxy as <-. by exists (s :: texts).
Qed.

Lemma setitem_lookup_eq (df : DataFrame) key cells new k :
  df !! k = Some (key, cells) → setitem df key new !! k = Some (key, new).
Proof. intros Hk. rewrite setitem_lookup, Hk. simpl. by rewrite bool_decide_eq_true_2. Qed.

Lemma setitem_lookup_ne (df : DataFrame) key label cells new k :
  df !! k = Some (label, cells) → label ≠ key →
  setitem df key new !! k = Some (label, cells).
Proof. intros Hk Hl. rewrite setitem_lookup, Hk. simpl. by rewrite bool_decide_eq_false_2. Qed.

Lemma rename_columns_lookup df k :
  rename_columns df !! k = (λ c : pystr * list pyval, (renamed c.1, c.2)) <$> df !! k.
Proof. unfold rename_columns. by rewrite list_lookup_fmap. Qed.

(** What a returning call has computed. *)
Lemma clean_million_song_subset_returns df result df' :
  clean_million_song_subset df = Some (inr result, df') →
  ∃ titles artists,
    getitem df (py "title") = Some (inr (VStr <$> titles)) ∧
    getitem df (py "artist") = Some (inr (VStr <$> artists)) ∧
    df' = setitem (setitem df (py "title") (VStr <$> (slice_2_m1 <$> titles)))
            (py "artist") (VStr <$> (slice_2_m1 <$> artists)) ∧
    result = rename_columns df'.
Proof.
  unfold clean_million_song_subset.
  destruct (getitem df (py "title")) as [[e|cells]|] eqn:Ht; [done| |done].
  destruct (str_slice_2_m1 cells) as [title|] eqn:Hst; [|done].
  apply str_slice_inv in Hst as (titles & -> & ->).
  rewrite getitem_setitem_ne by (by intros ?%py_inj).
  destruct (getitem df (py "artist")) as [[e|cells]|] eqn:Ha; [done| |done].
  destruct (str_slice_2_m1 cells) as [artist|] eqn:Hsa; [|done].
  apply str_slice_inv in Hsa as (artists & -> & ->).
  intros [= <- <-]. by exists titles, artists.
Qed.

(** X14: for a table with one [title] and one [artist] column of text, the
    call returns; column by column, the returned table has the label
    [title] turned into [Song] and [artist] into [Artist], the cells of
    these two columns without their first two and their last character, and
    every other column as it was; the caller's table has the same cells
    under its old labels. *)
Theorem clean_million_song_subset_columns df (titles artists : list pystr) :
  getitem df (py "title") = Some (inr (VStr <$> titles)) →
  getitem df (py "artist") = Some (inr (VStr <$> artists)) →
  ∃ result df',
    clean_million_song_subset df = Some (inr result, df') ∧
    length result = length df ∧ length df' = length df ∧
    ∀ k label cells, df !! k = Some (label, cells) →
      let cells' :=
        if bool_decide (label = py "title") then VStr <$> (slice_2_m1 <$> titles)
        else if bool_decide (label = py "artist") then VStr <$> (slice_2_m1 <$> artists)
        else cells in
      df' !! k = Some (label, cells') ∧ result !! k = Some (renamed label, cells').
Proof.
  intros Ht Ha. eexists _, _. split_and!.
  - unfold clean_million_song_subset.
    rewrite Ht, str_slice_text, getitem_setitem_ne by (by intros ?%py_inj).
    by rewrite Ha, str_slice_text.
  - unfold rename_columns. by rewrite length_fmap, !setitem_length.
  - by rewrite !setitem_length.
  - intros k label cells Hk cells'.
    assert (setitem (setitem df (py "title") (VStr <$> (slice_2_m1 <$> titles)))
              (py "artist") (VStr <$> (slice_2_m1 <$> artists)) !! k =
            Some (label, cells')) as Hk'.
    { unfold cells'. destruct (decide (label = py "title")) as [->|Hl].
      - rewrite bool_decide_eq_true_2 by done.
        apply setitem_lookup_ne; [|by intros ?%py_inj].
        by eapply setitem_lookup_eq.
      - rewrite (bool_decide_eq_false_2 _ Hl).
        destruct (decide (label = py "artist")) as [->|Hl'].
        + rewrite bool_decide_eq_true_2 by done.
          eapply setitem_lookup_eq. by apply setitem_lookup_ne.
        + rewrite (bool_decide_eq_false_2 _ Hl').
          apply setitem_lookup_ne; [|done]. by apply setitem_lookup_ne. }
    split; [done|]. by rewrite rename_columns_lookup, Hk'.
Qed.

(** X15: a title or artist written as the text of a byte string, b'...',
    comes out as the text between the quotes; in general a cell loses three
    characters, and a cell of at most three characters becomes empty. *)
Theorem clean_million_song_subset_unwraps df (titles artists : list pystr) result df' :
  getitem df (py "title") = Some (inr (VStr <$> ((λ s, py "b'" ++ s ++ py "'") <$> titles))) →
  getitem df (py "artist") = Some (inr (VStr <$> artists)) →
  clean_million_song_subset df = Some (inr result, df') →
  getitem df' (py "title") = Some (inr (VStr <$> titles)) ∧
  ∃ cleaned, getitem df' (py "artist") = Some (inr (VStr <$> cleaned)) ∧
    Forall2 (λ a c, length c = (length a - 3)%nat ∧ infix c a) artists cleaned.
Proof.
  intros Ht Ha (titles' & artists' & Ht' & Ha' & -> & ->)%clean_million_song_subset_returns.
  rewrite Ht in Ht'. rewrite Ha in Ha'.
  injection Ht' as Ht'. injection Ha' as Ha'.
  apply (inj (fmap VStr)) in Ht', Ha'. subst titles' artists'.
  split.
  - rewrite getitem_setitem_ne by (by intros ?%py_inj).
    rewrite (getitem_setitem _ _ _ _ Ht). do 3 f_equal.
    rewrite <- list_fmap_compose. rewrite <- (list_fmap_id titles) at 2.
    apply list_fmap_ext. intros _ s _. simpl.
    apply (slice_2_m1_wrapped 98%N 39%N s 39%N).
  - exists (slice_2_m1 <$> artists). split.
    + apply getitem_setitem with (cells := VStr <$> artists).
      by rewrite getitem_setitem_ne by (by intros ?%py_inj).
    + apply Forall2_fmap_r, Forall_Forall2_diag, Forall_forall. intros a _.
      split; [apply length_slice_2_m1|].
      unfold slice_2_m1. exists (take 2 (take (length a - 1) a)), (drop (length a - 1) a).
      by rewrite app_assoc, !take_drop.
Qed.

(** X16: when the table has a [title] column of text but no [artist]
    column, the call raises [KeyError] for 'artist', and the caller's table
    is left with its titles already cut. *)
Theorem clean_million_song_subset_no_artist df (titles : list pystr) :
  getitem df (py "title") = Some (inr (VStr <$> titles)) →
  Forall (λ c, c.1 ≠ py "artist") df →
  clean_million_song_subset df =
    Some (inl (Exn KeyError (py "'artist'")),
          setitem df (py "title") (VStr <$> (slice_2_m1 <$> titles))) ∧
  getitem (setitem df (py "title") (VStr <$> (slice_2_m1 <$> titles))) (py "title") =
    Some (inr (VStr <$> (slice_2_m1 <$> titles))).
Proof.
  intros Ht Hno. split; [|by eapply getitem_setitem].
  unfold clean_million_song_subset.
  rewrite Ht, str_slice_text, getitem_setitem_ne by (by intros ?%py_inj).
  by rewrite (getitem_missing _ _ Hno).
Qed.

Lemma rename_columns_no_title df : Forall (λ c, c.1 ≠ py "title") (rename_columns df).
Proof.
  unfold rename_columns. apply Forall_fmap, Forall_forall. intros c _. simpl.
  repeat case_bool_decide; [by intros ?%py_inj|by intros ?%py_inj|done].
Qed.

(** X17: the function is not to be applied twice.  On the table it
    returned it raises [KeyError] for 'title' (the column has been
    renamed) and changes nothing; on the caller's table, which it has
    changed, it returns again, and the titles and artists lose three more
    characters. *)
Theorem clean_million_song_subset_twice df result df' :
  clean_million_song_subset df = Some (inr result, df') →
  clean_million_song_subset result = Some (inl (Exn KeyError (py "'title'")), result) ∧
  ∃ titles artists result2 df2,
    getitem df (py "title") = Some (inr (VStr <$> titles)) ∧
    getitem df (py "artist") = Some (inr (VStr <$> artists)) ∧
    clean_million_song_subset df' = Some (inr result2, df2) ∧
    getitem df2 (py "title") =
      Some (inr (VStr <$> (slice_2_m1 <$> (slice_2_m1 <$> titles)))) ∧
    getitem df2 (py "artist") =
      Some (inr (VStr <$> (slice_2_m1 <$> (slice_2_m1 <$> artists)))).
Proof.
  intros (titles & artists & Ht & Ha & -> & ->)%clean_million_song_subset_returns.
  split.
  - unfold clean_million_song_subset.
    by rewrite (getitem_missing _ _ (rename_columns_no_title _)).
  - set (t1 := VStr <$> (slice_2_m1 <$> titles)).
    set (a1 := VStr <$> (slice_2_m1 <$> artists)).
    set (df1 := setitem (setitem df (py "title") t1) (py "artist") a1).
    assert (getitem df1 (py "title") = Some (inr t1)) as Ht1.
    { unfold df1. rewrite getitem_setitem_ne by (by intros ?%py_inj).
      by eapply getitem_setitem. }
    assert (getitem df1 (py "artist") = Some (inr a1)) as Ha1.
    { unfold df1. apply getitem_setitem with (cells := VStr <$> artists).
      by rewrite getitem_setitem_ne by (by intros ?%py_inj). }
    destruct (clean_million_song_subset_columns df1 _ _ Ht1 Ha1)
      as (result2 & df2 & Hcall & _ & _ & _).
    exists titles, artists, result2, df2. split_and!; [done|done|done| |].
    + apply clean_million_song_subset_returns in Hcall
        as (titles' & artists' & Ht' & Ha' & -> & _).
      rewrite Ht1 in Ht'. injection Ht' as Ht'.
      apply (inj (fmap VStr)) in Ht'. subst titles'.
      rewrite getitem_setitem_ne by (by intros ?%py_inj).
      by eapply getitem_setitem.
    + apply clean_million_song_subset_returns in Hcall
        as (titles' & artists' & Ht' & Ha' & -> & _).
      rewrite Ha1 in Ha'. injection Ha' as Ha'.
      apply (inj (fmap VStr)) in Ha'. subst artists'.
      eapply getitem_setitem. by rewrite getitem_setitem_ne by (by intros ?%py_inj).
Qed.

(** ** ChartScraper *)

Lemma scrape_items_spec chart_items songs artists :
  scrape_items chart_items songs artists =
  if forallb has_both chart_items
  then inr (songs ++ (title_text <$> chart_items), artists ++ (artist_text <$> chart_items))
  else inl NoneType_has_no_text.
Proof.
  revert songs artists. induction chart_items as [|item items IH]; intros songs artists.
  - simpl. by rewrite !app_nil_r.
  - cbn [scrape_items forallb fmap list_fmap].
    unfold has_both at 1, title_text at 1, artist_text at 1.
    destruct (title_of_a_story item) as [t|]; [|done].
    destruct (a_no_trucate item) as [a|]; [|done].
    rewrite IH. cbn [andb default]. destruct (forallb has_both items); [|done].
    by rewrite <- !app_assoc.
Qed.

(** X18: the scraper gives a table only when every chart row has both a
    title and an artist element; one row without either makes the call fail
    ('NoneType' object has no attribute 'text') and no table is returned,
    whatever the other rows hold.  The table has the columns [Song] and
    [Artist], one cell per chart row in page order, each the text of the
    element without surrounding whitespace. *)
Theorem scrape_billboard_hot_100_all_or_nothing chart_items :
  scrape_billboard_hot_100 chart_items =
    (if forallb has_both chart_items
     then inr [(py "Song", VStr <$> (title_text <$> chart_items));
               (py "Artist", VStr <$> (artist_text <$> chart_items))]
     else inl NoneType_has_no_text) ∧
  Forall (λ item, strip (title_text item) = title_text item ∧
                  strip (artist_text item) = artist_text item) chart_items.
Proof.
  split.
  - unfold scrape_billboard_hot_100. rewrite scrape_items_spec.
    by destruct (forallb has_both chart_items).
  - apply Forall_forall. intros item _. unfold title_text, artist_text.
    split; apply strip_idem.
Qed.

Lemma chart_rows_scraped chart_items :
  chart_rows [(py "Song", VStr <$> (title_text <$> chart_items));
              (py "Artist", VStr <$> (artist_text <$> chart_items))] =
  Some (imap (λ i row, (Z.of_nat i, row))
          ((λ item, {| Song := title_text item; Artist := artist_text item; rest := ∅ |})
             <$> chart_items)).
Proof.
  unfold chart_rows. rewrite bool_decide_eq_true_2 by (by rewrite !length_fmap).
  assert (mapM (λ sa : pyval * pyval,
                  match sa with
                  | (VStr s, VStr a) => Some {| Song := s; Artist := a; rest := ∅ |}
                  | _ => None
                  end)
            (zip (VStr <$> (title_text <$> chart_items))
                 (VStr <$> (artist_text <$> chart_items))) =
          Some ((λ item, {| Song := title_text item; Artist := artist_text item; rest := ∅ |})
                  <$> chart_items)) as ->; [|done].
  apply mapM_Some. induction chart_items as [|item items IH]; simpl; by constructor.
Qed.

Lemma default_index_imap (rows : list ChartEntry) :
  default_index (imap (λ i row, (Z.of_nat i, row)) rows).
Proof.
  unfold default_index. rewrite length_imap. apply list_eq. intros i.
  rewrite !list_lookup_fmap, list_lookup_imap.
  destruct (rows !! i) as [row|] eqn:Hi; simpl.
  - by rewrite lookup_seq_lt by (by eapply lookup_lt_Some).
  - by rewrite lookup_seq_ge by (by apply lookup_ge_None).
Qed.

Section pipeline.
Context `{Spotify W}.

(** X19: the batch processor run on a scraped chart.  The rows of the
    scraped table are the chart rows in page order, with the default index;
    so the flush at the last row happens at the last row only, and the
    number of batch files is [ceil(S / 50)] for [S] rows found, each file of
    1 to 50 rows and only the last one short. *)
Theorem main_on_scraped_chart (sp0 : W) chart_items df :
  scrape_billboard_hot_100 chart_items = inr df →
  ∃ rows,
    chart_rows df = Some rows ∧
    rows = imap (λ i row, (Z.of_nat i, row))
             ((λ item, {| Song := title_text item; Artist := artist_text item; rest := ∅ |})
                <$> chart_items) ∧
    let files := saved_batches (out (main sp0 rows)) in
    let found :=
      enriched (zip rows.*2 (row_results (Z.of_nat (length rows)) (init_state sp0) rows)) in
    length files = ((length found + 49) / 50)%nat ∧
    Forall (λ c, 1 ≤ length c.2 ≤ 50)%nat files ∧
    (∀ i c, files !! i = Some c → (S i < length files)%nat → length c.2 = 50%nat).
Proof.
  unfold scrape_billboard_hot_100. rewrite scrape_items_spec.
  destruct (forallb has_both chart_items); [|done]. intros [= <-].
  eexists. split; [apply chart_rows_scraped|]. split; [done|].
  apply main_default_index_batches, default_index_imap.
Qed.

End pipeline.

(** ** Instances of the further theorems with hypotheses *)

Lemma get_track_features_record_witness :
  dom demo_features = feature_keys ∧
  size demo_features = 8%nat ∧
  demo_features ≠ ∅ ∧
  ∃ year, demo_features !! py "album_release_year" = Some (VStr year) ∧
          (length year ≤ 4)%nat.
Proof.
  apply (get_track_features_record (H := demo_client)
           (py "Flowers") (py "Miley Cyrus") 0%nat 2%nat).
  vm_compute. reflexivity.
Defined.

Lemma loop_body_track_without_image_witness :
  loop_body (H := bare_client) 3 (init_state 0%nat) (0%Z, entry "Windy" "The Association") =
    State [] [] 51 1 2%nat
      [PrintMsg (py "Error processing track Windy by The Association: list index out of range")].
Proof.
  rewrite (loop_body_track_without_image (H := bare_client) 3 (init_state 0%nat) 0
             (entry "Windy" "The Association") bare_track []
             (py "0du5cEVh5yTK9QJze8zA0C") [] demo_artist 1%nat 2%nat).
  - vm_compute. reflexivity.
  - vm_compute. reflexivity.
  - reflexivity.
  - reflexivity.
  - reflexivity.
Defined.

Lemma enriched_row_fields_witness :
  enriched_row (entry "Creepin'" "Metro Boomin, The Weeknd & 21 Savage") demo_features
    !! py "Artist" = Some (VStr (py "Metro Boomin, The Weeknd & 21 Savage")).
Proof.
  destruct (enriched_row_fields (H := demo_client)
              (entry "Creepin'" "Metro Boomin, The Weeknd & 21 Savage")
              (py "Creepin'") (py "Metro Boomin") 0%nat 2%nat demo_features)
    as (_ & Hartist & _).
  - vm_compute. reflexivity.
  - exact Hartist.
Defined.

Lemma main_default_index_chunks_witness :
  length (saved_batches (out (main (H := demo_client) 0%nat (rows_from 0 3)))) =
    ((length (enriched (zip (rows_from 0 3).*2
                (row_results (H := demo_client) (Z.of_nat (length (rows_from 0 3)))
                   (init_state 0%nat) (rows_from 0 3)))) + 49) / 50)%nat.
Proof.
  destruct (main_default_index_chunks (H := demo_client) 0%nat (rows_from 0 3))
    as [Hlen _].
  - vm_compute. reflexivity.
  - exact Hlen.
Defined.

Lemma encode_genres_fails_after_assignment_witness :
  ∃ e, encode_genres (H := read_string_list) genre_table_missing genre_column_default =
         Some (inl e, setitem genre_table_missing genre_column_default
                        [VList [py "pop"]; VNone]) ∧
       exn_kind e = TypeError.
Proof.
  destruct (encode_genres_fails_after_assignment (H := read_string_list)
              genre_table_missing genre_column_default
              [VStr (py "['pop']"); VNone] [VList [py "pop"]; VNone])
    as (e & He & Hk & _).
  - vm_compute. reflexivity.
  - vm_compute. reflexivity.
  - apply Exists_cons_tl, Exists_cons_hd. exact I.
  - by exists e.
Defined.

Lemma encode_genres_unreadable_cell_witness :
  encode_genres (H := read_string_list) genre_table_unreadable genre_column_default =
    Some (inl (Exn ValueError (py "malformed node or string")), genre_table_unreadable).
Proof.
  apply (encode_genres_unreadable_cell (H := read_string_list) genre_table_unreadable
           genre_column_default [VStr (py "['pop']")] (py "r&b, pop") []).
  - vm_compute. reflexivity.
  - constructor; [|constructor]. eexists. vm_compute. reflexivity.
  - vm_compute. reflexivity.
Defined.

Lemma encode_genres_again_witness :
  encode_genres (H := read_string_list) genre_table_parsed genre_column_default =
    Some (inr genre_table_encoded, genre_table_parsed).
Proof.
  apply (encode_genres_again (H := read_string_list) genre_table genre_column_default
           genre_table_encoded genre_table_parsed
           [VList [py "rock"; py "pop"]; VList [py "pop"; py "jazz"]; VList []]).
  - vm_compute. reflexivity.
  - vm_compute. reflexivity.
  - repeat constructor.
Defined.

Lemma encode_genres_labels_witness :
  ∃ rows,
    genre_rows (H := read_string_list) genre_table genre_column_default = Some rows ∧
    genre_table_encoded.*1 = genre_table.*1 ++ classes_ rows.
Proof.
  destruct (encode_genres_labels (H := read_string_list) genre_table genre_column_default
              genre_table_encoded genre_table_parsed) as (rows & Hrows & Hlabels & _).
  - vm_compute. reflexivity.
  - by exists rows.
Defined.

Lemma clean_million_song_subset_columns_witness :
  ∃ result df',
    clean_million_song_subset million_table = Some (inr result, df') ∧
    length result = length million_table.
Proof.
  destruct (clean_million_song_subset_columns million_table
              [py "b'Soul Deep'"; py "b'Amor De Cabaret'"]
              [py "b'The Box Tops'"; py "b'Sonora Santanera'"])
    as (result & df' & Hcall & Hlen & _).
  - vm_compute. reflexivity.
  - vm_compute. reflexivity.
  - by exists result, df'.
Defined.

Lemma clean_million_song_subset_unwraps_witness :
  getitem
    (setitem (setitem million_table (py "title")
                [VStr (py "Soul Deep"); VStr (py "Amor De Cabaret")])
       (py "artist") [VStr (py "The Box Tops"); VStr (py "Sonora Santanera")])
    (py "title") =
  Some (inr (VStr <$> [py "Soul Deep"; py "Amor De Cabaret"])).
Proof.
  eapply (clean_million_song_subset_unwraps million_table
            [py "Soul Deep"; py "Amor De Cabaret"]
            [py "b'The Box Tops'"; py "b'Sonora Santanera'"]).
  - vm_compute. reflexivity.
  - vm_compute. reflexivity.
  - vm_compute. reflexivity.
Defined.

Lemma clean_million_song_subset_no_artist_witness :
  clean_million_song_subset million_table_no_artist =
    Some (inl (Exn KeyError (py "'artist'")),
          setitem million_table_no_artist (py "title")
            (VStr <$> (slice_2_m1 <$> [py "b'Soul Deep'"; py "b'Amor De Cabaret'"]))) ∧
  setitem million_table_no_artist (py "title")
    (VStr <$> (slice_2_m1 <$> [py "b'Soul Deep'"; py "b'Amor De Cabaret'"])) ≠
    million_table_no_artist.
Proof.
  destruct (clean_million_song_subset_no_artist million_table_no_artist
              [py "b'Soul Deep'"; py "b'Amor De Cabaret'"]) as [Hcall _].
  - vm_compute. reflexivity.
  - repeat constructor; vm_compute; discriminate.
  - split; [exact Hcall|]. vm_compute. discriminate.
Defined.

Lemma clean_million_song_subset_twice_witness :
  ∃ result, clean_million_song_subset million_table =
              Some (inr result, setitem (setitem million_table (py "title")
                      [VStr (py "Soul Deep"); VStr (py "Amor De Cabaret")])
                      (py "artist") [VStr (py "The Box Tops"); VStr (py "Sonora Santanera")]) ∧
    clean_million_song_subset result = Some (inl (Exn KeyError (py "'title'")), result).
Proof.
  eexists. split; [vm_compute; reflexivity|].
  eapply (clean_million_song_subset_twice million_table).
  vm_compute. reflexivity.
Defined.

Lemma main_on_scraped_chart_witness :
  ∃ rows,
    chart_rows [(py "Song", [VStr (py "Flowers"); VStr (py "Kill Bill")]);
                (py "Artist", [VStr (py "Miley Cyrus"); VStr (py "SZA")])] = Some rows ∧
    Forall (λ c, 1 ≤ length c.2 ≤ 50)%nat
      (saved_batches (out (main (H := demo_client) 0%nat rows))).
Proof.
  destruct (main_on_scraped_chart (H := demo_client) 0%nat chart_page
              [(py "Song", [VStr (py "Flowers"); VStr (py "Kill Bill")]);
               (py "Artist", [VStr (py "Miley Cyrus"); VStr (py "SZA")])])
    as (rows & Hrows & _ & _ & Hsizes & _).
  - vm_compute. reflexivity.
  - by exists rows.
Defined.
